(** * E-Library backend: circulation and payment engines

    A shallow embedding of the request handlers of [src/routes/books.ts]
    (issue / return) and [src/routes/payment.ts] (initiate / verify /
    status) together with [src/utils/upi.ts], over an explicit model of
    the relational store the handlers reach through the Prisma client.

    Every [await prisma.x.op(...)] of the source is one atomic action on
    the store; a handler is the tree of its awaited actions, so that a
    single request can be run to completion and two requests can be
    interleaved at their await points. *)

From Stdlib Require Import ZArith String Ascii.
From stdpp Require Import gmap strings list fin_maps pretty sorting.

Local Open Scope Z_scope.

(** ** Data model *)

(** [Date] values are instants, in milliseconds since the epoch. *)
Definition Date := Z.

(** Modelled from the spec: prisma/schema.prisma is not part of the
    sources; section 3 of the specification gives Book.status the two
    values below (the handlers only ever write these two). *)
Inductive BookStatus := AVAILABLE | ISSUED.

(** Modelled from the spec: the payment_status column of PrintJob and of
    Payment (schema missing, values of section 3; the handlers write
    'PENDING', and 'SUCCESS' | 'FAILED' from [verifySchema]). *)
Inductive PaymentStatus := PENDING | SUCCESS | FAILED.

(** [JwtUser['role']] of utils/jwt.ts. *)
Inductive Role := USER | LIBRARY_ADMIN | SUPER_ADMIN.

(** [z.enum(['UPI', 'GPAY'])] of [initiateSchema]. *)
Inductive PaymentMethod := UPI | GPAY.

#[global] Instance BookStatus_eq_dec : EqDecision BookStatus.
Proof. solve_decision. Defined.
#[global] Instance PaymentStatus_eq_dec : EqDecision PaymentStatus.
Proof. solve_decision. Defined.
#[global] Instance Role_eq_dec : EqDecision Role.
Proof. solve_decision. Defined.
#[global] Instance PaymentMethod_eq_dec : EqDecision PaymentMethod.
Proof. solve_decision. Defined.

(** Each table is a finite map from the primary key (book_id, user_id,
    issue_id, print_id, payment_id: all unique strings) to the remaining
    columns of the row.  A row handed back by a query is the pair of its
    key and its columns. *)

Module Book.
Record t := mk {
  book_name : string;
  author_name : string;
  category : string;
  publication_year : Z;
  library_location : string;
  status : BookStatus;
  created_at : Date }.

Definition set_status (s : BookStatus) (b : t) : t :=
  mk (book_name b) (author_name b) (category b) (publication_year b)
     (library_location b) s (created_at b).
End Book.

Module User.
Record t := mk {
  name : string;
  email : string;
  password : option string;
  role : Role;
  created_at : Date;
  last_login : option Date }.
End User.

Module BookIssue.
Record t := mk {
  book_id : string;
  user_id : string;
  issued_date : Date;
  due_date : Date;
  returned_date : option Date }.

Definition set_returned_date (d : option Date) (i : t) : t :=
  mk (book_id i) (user_id i) (issued_date i) (due_date i) d.
End BookIssue.

Module PrintJob.
Record t := mk {
  user_id : string;
  file_name : string;
  storage_path : string;
  total_pages : Z;
  cost_per_page : Z;
  total_cost : Z;
  payment_status : PaymentStatus;
  created_at : Date }.

Definition set_payment_status (s : PaymentStatus) (j : t) : t :=
  mk (user_id j) (file_name j) (storage_path j) (total_pages j)
     (cost_per_page j) (total_cost j) s (created_at j).
End PrintJob.

Module Payment.
Record t := mk {
  user_id : string;
  print_id : string;
  payment_method : PaymentMethod;
  transaction_id : option string;
  payment_status : PaymentStatus;
  paid_at : option Date;
  created_at : Date }.

Definition verified (tx : string) (s : PaymentStatus) (at_ : option Date)
    (p : t) : t :=
  mk (user_id p) (print_id p) (payment_method p) (Some tx) s at_
     (created_at p).
End Payment.

(** The store: the five tables behind [prisma.book], [prisma.user],
    [prisma.bookIssue], [prisma.printJob] and [prisma.payment]. *)
Record DB := mkDB {
  book : gmap string Book.t;
  user : gmap string User.t;
  bookIssue : gmap string BookIssue.t;
  printJob : gmap string PrintJob.t;
  payment : gmap string Payment.t }.

Definition with_book (f : gmap string Book.t → gmap string Book.t)
    (db : DB) : DB :=
  mkDB (f (book db)) (user db) (bookIssue db) (printJob db) (payment db).
Definition with_bookIssue
    (f : gmap string BookIssue.t → gmap string BookIssue.t) (db : DB) : DB :=
  mkDB (book db) (user db) (f (bookIssue db)) (printJob db) (payment db).
Definition with_printJob
    (f : gmap string PrintJob.t → gmap string PrintJob.t) (db : DB) : DB :=
  mkDB (book db) (user db) (bookIssue db) (f (printJob db)) (payment db).
Definition with_payment
    (f : gmap string Payment.t → gmap string Payment.t) (db : DB) : DB :=
  mkDB (book db) (user db) (bookIssue db) (printJob db) (f (payment db)).

(** ** Store actions *)

(** Modelled from the spec: the Prisma client (db.ts) and its schema are
    not part of the sources.  Section 6 of the specification gives the
    store row-level create / read / update per entity, keyed by the unique
    id of section 3, and an atomic multi-statement transaction with
    rollback on exception.  What a call can throw: a unique-constraint
    violation on create, a missing record on update, a required relation
    that resolves to nothing. *)
Inductive Exn :=
| UniqueConstraintFailed
| RecordNotFound
| InconsistentQueryResult.

(** One awaited call: it reads the store, and either throws or yields a
    value and the store after the call. *)
Definition Prisma (A : Type) : Type := DB → (Exn + A) * DB.

Definition ret {A} (a : A) : Prisma A := λ db, (inr a, db).
Definition throw {A} (e : Exn) : Prisma A := λ db, (inl e, db).
Definition bind {A B} (m : Prisma A) (k : A → Prisma B) : Prisma B :=
  λ db, match m db with
        | (inl e, db') => (inl e, db')
        | (inr a, db') => k a db'
        end.

Declare Scope prisma_scope.
Delimit Scope prisma_scope with prisma.
Notation "x <- m ;; k" := (bind m (λ x, k))
  (at level 100, m at next level, right associativity) : prisma_scope.

(** [prisma.$transaction(async (tx) => ...)]: the callback's writes are
    kept when it returns and dropped when it throws. *)
Definition transaction {A} (callback : Prisma A) : Prisma A :=
  λ db, match callback db with
        | (inl e, _) => (inl e, db)
        | (inr a, db') => (inr a, db')
        end.

Definition book_findUnique (book_id : string) : Prisma (option Book.t) :=
  λ db, (inr (book db !! book_id), db).

Definition user_findUnique (user_id : string) : Prisma (option User.t) :=
  λ db, (inr (user db !! user_id), db).

Definition book_update (book_id : string) (data : Book.t → Book.t)
    : Prisma Book.t :=
  λ db, match book db !! book_id with
        | None => (inl RecordNotFound, db)
        | Some b => (inr (data b), with_book <[book_id := data b]> db)
        end.

(** [create] stores the row under the key the store generates for it;
    keys are unique, a key already present is refused. *)
Definition bookIssue_create (generated_id : string) (data : BookIssue.t)
    : Prisma (string * BookIssue.t) :=
  λ db, match bookIssue db !! generated_id with
        | Some _ => (inl UniqueConstraintFailed, db)
        | None => (inr (generated_id, data),
                   with_bookIssue <[generated_id := data]> db)
        end.

Definition bookIssue_update (issue_id : string)
    (data : BookIssue.t → BookIssue.t) : Prisma (string * BookIssue.t) :=
  λ db, match bookIssue db !! issue_id with
        | None => (inl RecordNotFound, db)
        | Some i => (inr (issue_id, data i),
                     with_bookIssue <[issue_id := data i]> db)
        end.

(** The [where] argument of [prisma.bookIssue.findFirst]: the filter
    [returned_date: null] and the two optional selectors, all of which a
    row must satisfy. *)
Record BookIssueWhere := mkWhere {
  where_returned_date_null : bool;
  where_issue_id : option string;
  where_book_id : option string }.

Definition matches (w : BookIssueWhere) (r : string * BookIssue.t) : bool :=
  (if where_returned_date_null w
   then bool_decide (BookIssue.returned_date r.2 = None) else true)
  && match where_issue_id w with
     | Some i => bool_decide (r.1 = i)
     | None => true
     end
  && match where_book_id w with
     | Some b => bool_decide (BookIssue.book_id r.2 = b)
     | None => true
     end.

(** [orderBy: { issued_date: 'desc' }] followed by taking the first row:
    a row whose issued_date no other row exceeds.  Among rows of the same
    issued_date the code leaves the choice to the database; here it falls
    on the last of them in the order of the keys. *)
Definition later (r : string * BookIssue.t)
    (acc : option (string * BookIssue.t)) : option (string * BookIssue.t) :=
  match acc with
  | None => Some r
  | Some r' =>
      if BookIssue.issued_date r'.2 <? BookIssue.issued_date r.2
      then Some r else Some r'
  end.

Definition first_issued_date_desc (rows : list (string * BookIssue.t))
    : option (string * BookIssue.t) :=
  foldr later None rows.

Definition bookIssue_findFirst (w : BookIssueWhere)
    : Prisma (option (string * BookIssue.t)) :=
  λ db, (inr (first_issued_date_desc
                (filter (λ r, matches w r = true)
                        (map_to_list (bookIssue db)))), db).

(** ** Requests, responses, handlers *)

(** [res.status(s).json(body)] and [res.status(s).json({ error: { message } })]. *)
Inductive Response (B : Type) :=
| json (status : nat) (body : B)
| error (status : nat) (message : string).
Arguments json {B} status body.
Arguments error {B} status message.

Definition status_code {B} (r : Response B) : nat :=
  match r with json s _ => s | error s _ => s end.

(** The failure kinds of the specification, by status code. *)
Inductive Kind := BadRequest | Forbidden | NotFound | Conflict.

Definition kind_of {B} (r : Response B) : option Kind :=
  match r with
  | json _ _ => None
  | error s _ =>
      match s with
      | 400%nat => Some BadRequest
      | 403%nat => Some Forbidden
      | 404%nat => Some NotFound
      | 409%nat => Some Conflict
      | _ => None
      end
  end.

(** A handler body: it answers, or awaits a store action and goes on with
    its result. *)
Inductive Handler (R : Type) : Type :=
| Return (r : R)
| Await {A : Type} (q : Prisma A) (k : A → Handler R).
Arguments Return {R} r.
Arguments Await {R A} q k.

Notation "'await' x ← q ; k" := (Await q (λ x, k))
  (at level 10, x name, q at level 100, k at level 200,
   only parsing).

(** Running a handler alone, from its first await to its answer. *)
Fixpoint run {R} (h : Handler R) (db : DB) : (Exn + R) * DB :=
  match h with
  | Return r => (inr r, db)
  | Await q k =>
      match q db with
      | (inl e, db') => (inl e, db')
      | (inr a, db') => run (k a) db'
      end
  end.

(** Modelled from the spec: utils/asyncHandler.ts is not part of the
    sources.  A rejected handler reaches the error middleware of app.ts,
    which answers 500: the generic failure of section 5. *)
Definition asyncHandler {B} (h : Handler (Response B)) (db : DB)
    : Response B * DB :=
  match run h db with
  | (inl _, db') => (error 500 "Internal server error", db')
  | (inr r, db') => (r, db')
  end.

(** What a request gets from outside the handler: the key the store
    generates for a created row, and the clock. *)
Record Gen := mkGen {
  generated_id : string;
  now : Date }.

(** JavaScript truthiness of an optional string. *)
Definition truthy (s : option string) : bool :=
  match s with
  | Some s => negb (bool_decide (s = ""))
  | None => false
  end.

Record IssueBody := mkIssueBody {
  issue_book_id : string;
  issue_user_id : string;
  issue_due_date : Date }.

Record ReturnBody := mkReturnBody {
  return_issue_id : option string;
  return_book_id : option string }.

(** [issueSchema] and [returnSchema]: [z.string().min(1)]. *)
Definition issueSchema (b : IssueBody) : bool :=
  negb (bool_decide (issue_book_id b = ""))
  && negb (bool_decide (issue_user_id b = "")).

Definition min1_optional (s : option string) : bool :=
  match s with
  | Some s => negb (bool_decide (s = ""))
  | None => true
  end.

Definition returnSchema (b : ReturnBody) : bool :=
  min1_optional (return_issue_id b) && min1_optional (return_book_id b).

(** ** Circulation engine (routes/books.ts) *)

(** POST /books/issue.  The created row takes issued_date = now and
    returned_date = null from the column defaults (section 4.1 of the
    specification; the schema is not part of the sources). *)
Definition issueBook (g : Gen) (body : IssueBody)
    : Handler (Response (string * BookIssue.t)) :=
  let book_id := issue_book_id body in
  let user_id := issue_user_id body in
  let due_date := issue_due_date body in
  await book ← book_findUnique book_id;
  match book with
  | None => Return (error 404 "Book not found")
  | Some book =>
      if bool_decide (Book.status book ≠ AVAILABLE)
      then Return (error 409 "Book is not available")
      else
        await user ← user_findUnique user_id;
        match user with
        | None => Return (error 404 "User not found")
        | Some _ =>
            await issue ← transaction (
              created <- bookIssue_create (generated_id g)
                           (BookIssue.mk book_id user_id (now g) due_date None) ;;
              _ <- book_update book_id (Book.set_status ISSUED) ;;
              ret created)%prisma;
            Return (json 201 issue)
        end
  end.

(** POST /books/return. *)
Definition returnBook (g : Gen) (body : ReturnBody)
    : Handler (Response (string * BookIssue.t)) :=
  let issue_id := return_issue_id body in
  let book_id := return_book_id body in
  if negb (truthy issue_id) && negb (truthy book_id)
  then Return (error 400 "Provide issue_id or book_id")
  else
    await issue ← bookIssue_findFirst
                    (mkWhere true
                       (if truthy issue_id then issue_id else None)
                       (if truthy book_id then book_id else None));
    match issue with
    | None => Return (error 404 "Active issue not found")
    | Some issue =>
        await returned ← transaction (
          updated <- bookIssue_update issue.1
                       (BookIssue.set_returned_date (Some (now g))) ;;
          _ <- book_update (BookIssue.book_id issue.2)
                 (Book.set_status AVAILABLE) ;;
          ret updated)%prisma;
        Return (json 200 returned)
    end.

(** ** Payment-collection URI (utils/upi.ts) *)

(** The application/x-www-form-urlencoded serializer behind
    [URLSearchParams]: letters, digits and [*-._] stand for themselves, a
    space becomes [+], every other byte becomes [%XX]. *)
Definition unreserved (c : ascii) : bool :=
  let n := nat_of_ascii c in
  ((48 <=? n) && (n <=? 57) || (65 <=? n) && (n <=? 90)
   || (97 <=? n) && (n <=? 122)
   || (n =? 42) || (n =? 45) || (n =? 46) || (n =? 95))%nat.

Definition hex_digit (n : nat) : ascii :=
  match n with
  | 0 => "0" | 1 => "1" | 2 => "2" | 3 => "3" | 4 => "4" | 5 => "5"
  | 6 => "6" | 7 => "7" | 8 => "8" | 9 => "9" | 10 => "A" | 11 => "B"
  | 12 => "C" | 13 => "D" | 14 => "E" | _ => "F"
  end%char%nat.

Definition percent_encode (c : ascii) : string :=
  let n := nat_of_ascii c in
  String "%" (String (hex_digit (n / 16)) (String (hex_digit (n mod 16)) "")).

Fixpoint urlencode (s : string) : string :=
  match s with
  | "" => ""
  | String c s' =>
      (if unreserved c then String c ""
       else if bool_decide (c = " "%char) then "+"
       else percent_encode c) +:+ urlencode s'
  end.

(** [searchParams.set(name, value)]: the first pair of that name takes the
    value and the other pairs of that name go; without such a pair, the
    new pair is appended. *)
Fixpoint searchParams_set (name value : string)
    (params : list (string * string)) : list (string * string) :=
  match params with
  | [] => [(name, value)]
  | (n, v) :: rest =>
      if bool_decide (n = name)
      then (n, value) :: filter (λ p, p.1 ≠ name) rest
      else (n, v) :: searchParams_set name value rest
  end.

Fixpoint serialize (params : list (string * string)) : string :=
  match params with
  | [] => ""
  | [(n, v)] => urlencode n +:+ "=" +:+ urlencode v
  | (n, v) :: rest => urlencode n +:+ "=" +:+ urlencode v +:+ "&" +:+ serialize rest
  end.

(** [uri.toString()] of a URL of scheme [upi], host [pay], no path. *)
Definition URL_toString (params : list (string * string)) : string :=
  match params with
  | [] => "upi://pay"
  | _ => "upi://pay?" +:+ serialize params
  end.

(** The number a column value is in the handlers: the double nearest to
    it, ties to the even significand (within the range of finite doubles).
    Integers up to 2^53 are doubles themselves. *)
Definition to_double_pos (n : Z) : Z :=
  if bool_decide (n < 2 ^ 53) then n
  else
    let e := Z.log2 n - 52 in
    let q := n ≫ e in
    let r := n - q ≪ e in
    let half := 2 ^ (e - 1) in
    let q := if bool_decide (r < half) then q
             else if bool_decide (half < r) then q + 1
             else if Z.even q then q else q + 1 in
    q ≪ e.

Definition to_double (n : Z) : Z := Z.sgn n * to_double_pos (Z.abs n).

(** [Number::toString] of an integer double x of d decimal digits, from
    10^21 on: the shortest significand s of k digits with s * 10^(d-k)
    rounding to x, the one nearest to x when two of them do (the even one
    on a tie), then the exponent. *)
Definition shortest (x d k : Z) : option Z :=
  let p := 10 ^ (d - k) in
  let lo := x / p in
  let hi := lo + 1 in
  match bool_decide (to_double_pos (lo * p) = x),
        bool_decide (to_double_pos (hi * p) = x) with
  | true, true =>
      if bool_decide (x - lo * p < hi * p - x) then Some lo
      else if bool_decide (hi * p - x < x - lo * p) then Some hi
      else if Z.even lo then Some lo else Some hi
  | true, false => Some lo
  | false, true => Some hi
  | false, false => None
  end.

Definition significand (x d : Z) : Z * Z :=
  default (x / 10 ^ (d - 17), 17)
    (head (omap (λ k, (λ s, (s, k)) <$> shortest x d k) (seqZ 1 17))).

Definition Number_toString_exponent (x : Z) : string :=
  let d := Z.of_nat (String.length (pretty x)) in
  let '(s, k) := significand x d in
  let '(s, n) := if bool_decide (s = 10 ^ k) then (10 ^ (k - 1), d + 1)
                 else (s, d) in
  match pretty s with
  | String c "" => String c ("e+" +:+ pretty (n - 1))
  | String c digits => String c ("." +:+ digits +:+ "e+" +:+ pretty (n - 1))
  | "" => ""
  end.

(** [amount.toFixed(2)] of an integer amount: the sign, then the decimal
    numeral and the two fraction digits below 10^21, and what
    [Number::toString] prints (exponent notation) from 10^21 on. *)
Definition toFixed2 (amount : Z) : string :=
  let x := to_double_pos (Z.abs amount) in
  (if bool_decide (amount < 0) then "-" else "")
  +:+ (if bool_decide (x < 10 ^ 21) then pretty x +:+ ".00"
       else Number_toString_exponent x).

Record UpiParams := mkUpiParams {
  payeeVpa : string;
  payeeName : string;
  amount : Z;
  transactionNote : string;
  transactionRef : string }.

Definition buildUpiPayUri (params : UpiParams) : string :=
  let uri := [] in
  let uri := searchParams_set "pa" (payeeVpa params) uri in
  let uri := searchParams_set "pn" (payeeName params) uri in
  let uri := searchParams_set "am" (toFixed2 (amount params)) uri in
  let uri := searchParams_set "cu" "INR" uri in
  let uri := searchParams_set "tn" (transactionNote params) uri in
  let uri := searchParams_set "tr" (transactionRef params) uri in
  URL_toString uri.

(** ** Payment engine (routes/payment.ts) *)

(** [env] of config.ts, as far as the payment routes read it. *)
Record Env := mkEnv {
  UPI_VPA : string;
  UPI_PAYEE_NAME : string }.

Definition default_env : Env := mkEnv "library@upi" "E-Library".

(** [req.auth]: what the credential carries. *)
Record JwtUser := mkJwtUser {
  userId : string;
  role : Role }.

Definition printJob_findUnique (print_id : string)
    : Prisma (option PrintJob.t) :=
  λ db, (inr (printJob db !! print_id), db).

Definition payment_findUnique (payment_id : string)
    : Prisma (option Payment.t) :=
  λ db, (inr (payment db !! payment_id), db).

(** [findUnique] with [include: { print: true }]: print is a required
    relation, a payment whose print job is gone cannot be loaded. *)
Definition payment_findUnique_include_print (payment_id : string)
    : Prisma (option (Payment.t * PrintJob.t)) :=
  λ db, match payment db !! payment_id with
        | None => (inr None, db)
        | Some p =>
            match printJob db !! Payment.print_id p with
            | None => (inl InconsistentQueryResult, db)
            | Some j => (inr (Some (p, j)), db)
            end
        end.

Definition payment_create (generated_id : string) (data : Payment.t)
    : Prisma (string * Payment.t) :=
  λ db, match payment db !! generated_id with
        | Some _ => (inl UniqueConstraintFailed, db)
        | None => (inr (generated_id, data),
                   with_payment <[generated_id := data]> db)
        end.

Definition payment_update (payment_id : string)
    (data : Payment.t → Payment.t) : Prisma (string * Payment.t) :=
  λ db, match payment db !! payment_id with
        | None => (inl RecordNotFound, db)
        | Some p => (inr (payment_id, data p),
                     with_payment <[payment_id := data p]> db)
        end.

Definition printJob_update (print_id : string)
    (data : PrintJob.t → PrintJob.t) : Prisma (string * PrintJob.t) :=
  λ db, match printJob db !! print_id with
        | None => (inl RecordNotFound, db)
        | Some j => (inr (print_id, data j),
                     with_printJob <[print_id := data j]> db)
        end.

Record InitiateBody := mkInitiateBody {
  initiate_print_id : string;
  initiate_payment_method : PaymentMethod }.

Record VerifyBody := mkVerifyBody {
  verify_payment_id : string;
  verify_transaction_id : string;
  verify_payment_status : PaymentStatus }.

(** [verifySchema]: two non-empty strings and [z.enum(['SUCCESS', 'FAILED'])]. *)
Definition verifySchema (b : VerifyBody) : bool :=
  negb (bool_decide (verify_payment_id b = ""))
  && negb (bool_decide (verify_transaction_id b = ""))
  && negb (bool_decide (verify_payment_status b = PENDING)).

(** The JSON answers of the three routes. *)
Record InitiateJson := mkInitiateJson {
  ij_payment_id : string;
  ij_payment_method : PaymentMethod;
  ij_payment_status : PaymentStatus;
  ij_created_at : Date;
  upi_uri : string }.

Record VerifyJson := mkVerifyJson {
  vj_payment_id : string;
  vj_payment_status : PaymentStatus;
  vj_transaction_id : option string;
  vj_paid_at : option Date }.

Record StatusJson := mkStatusJson {
  sj_payment_id : string;
  sj_payment : Payment.t;
  sj_print_job_total_cost : Z;
  sj_print_job_payment_status : PaymentStatus }.

(** POST /payment/initiate.  The created row takes transaction_id = null,
    paid_at = null and created_at = now from the column defaults (section
    3 of the specification; the schema is not part of the sources). *)
Definition initiate (env : Env) (g : Gen) (auth : JwtUser)
    (body : InitiateBody) : Handler (Response InitiateJson) :=
  let print_id := initiate_print_id body in
  let payment_method := initiate_payment_method body in
  await job ← printJob_findUnique print_id;
  match job with
  | None => Return (error 404 "Print job not found")
  | Some job =>
      if bool_decide (PrintJob.user_id job ≠ userId auth)
      then Return (error 403 "Forbidden")
      else if bool_decide (PrintJob.payment_status job = SUCCESS)
      then Return (error 409 "Print job is already paid")
      else
        await payment ← payment_create (generated_id g)
                          (Payment.mk (userId auth) print_id payment_method
                             None PENDING None (now g));
        let upiUri := buildUpiPayUri
          (mkUpiParams (UPI_VPA env) (UPI_PAYEE_NAME env)
             (PrintJob.total_cost job) ("Print job " +:+ print_id) payment.1) in
        Return (json 201
          (mkInitiateJson payment.1 (Payment.payment_method payment.2)
             (Payment.payment_status payment.2)
             (Payment.created_at payment.2) upiUri))
  end.

(** POST /payment/verify. *)
Definition verify (g : Gen) (auth : JwtUser) (body : VerifyBody)
    : Handler (Response VerifyJson) :=
  let payment_id := verify_payment_id body in
  let transaction_id := verify_transaction_id body in
  let payment_status := verify_payment_status body in
  await payment ← payment_findUnique payment_id;
  match payment with
  | None => Return (error 404 "Payment not found")
  | Some payment =>
      if bool_decide (Payment.user_id payment ≠ userId auth)
      then Return (error 403 "Forbidden")
      else
        await updated ← transaction (
          p <- payment_update payment_id
                 (Payment.verified transaction_id payment_status
                    (if bool_decide (payment_status = SUCCESS)
                     then Some (now g) else None)) ;;
          _ <- printJob_update (Payment.print_id payment)
                 (PrintJob.set_payment_status payment_status) ;;
          ret p)%prisma;
        Return (json 200
          (mkVerifyJson updated.1 (Payment.payment_status updated.2)
             (Payment.transaction_id updated.2) (Payment.paid_at updated.2)))
  end.

(** GET /payment/status/:id. *)
Definition status (auth : JwtUser) (paymentId : string)
    : Handler (Response StatusJson) :=
  await payment ← payment_findUnique_include_print paymentId;
  match payment with
  | None => Return (error 404 "Payment not found")
  | Some (payment, print) =>
      let isOwner := bool_decide (Payment.user_id payment = userId auth) in
      let isAdmin := bool_decide (role auth = LIBRARY_ADMIN)
                     || bool_decide (role auth = SUPER_ADMIN) in
      if negb isOwner && negb isAdmin
      then Return (error 403 "Forbidden")
      else
        Return (json 200
          (mkStatusJson paymentId payment (PrintJob.total_cost print)
             (PrintJob.payment_status print)))
  end.

(** ** Middleware (middleware/auth.ts, middleware/validate.ts) *)

(** What the Authorization header amounts to once the identity provider
    has looked at it: no bearer token, a token that does not verify, or
    the user a valid token carries. *)
Inductive Credential :=
| NoToken
| BadToken
| Token (payload : JwtUser).

Definition requireAuth {B} (cred : Credential)
    (next : JwtUser → Handler (Response B)) : Handler (Response B) :=
  match cred with
  | NoToken => Return (error 401 "Missing Authorization Bearer token")
  | BadToken => Return (error 401 "Invalid or expired token")
  | Token payload => next payload
  end.

Definition requireRole {B} (allowed : list Role) (auth : option JwtUser)
    (next : Handler (Response B)) : Handler (Response B) :=
  match auth with
  | None => Return (error 401 "Unauthorized")
  | Some auth =>
      if bool_decide (role auth ∈ allowed)
      then next
      else Return (error 403 "Forbidden")
  end.

Definition validateBody {A B} (schema : A → bool) (body : A)
    (next : A → Handler (Response B)) : Handler (Response B) :=
  if schema body
  then next body
  else Return (error 400 "Invalid request body").

(** The two circulation routes as books.ts mounts them. *)
Definition POST_books_issue (g : Gen) (cred : Credential)
    (body : IssueBody) : Handler (Response (string * BookIssue.t)) :=
  requireAuth cred (λ auth,
    requireRole [LIBRARY_ADMIN; SUPER_ADMIN] (Some auth)
      (validateBody issueSchema body (issueBook g))).

Definition POST_books_return (g : Gen) (cred : Credential)
    (body : ReturnBody) : Handler (Response (string * BookIssue.t)) :=
  requireAuth cred (λ auth,
    requireRole [LIBRARY_ADMIN; SUPER_ADMIN] (Some auth)
      (validateBody returnSchema body (returnBook g))).

(** ** Two requests in flight *)

(** A request being served: still running, or settled with its answer or
    with the exception that rejected it. *)
Inductive Thread (R : Type) : Type :=
| Running (h : Handler R)
| Settled (r : Exn + R).
Arguments Running {R} h.
Arguments Settled {R} r.

(** The event loop resumes a request at its pending await and runs it up
    to the next one. *)
Definition advance {R} (t : Thread R) (db : DB) : Thread R * DB :=
  match t with
  | Settled r => (Settled r, db)
  | Running (Return r) => (Settled (inr r), db)
  | Running (Await q k) =>
      match q db with
      | (inl e, db') => (Settled (inl e), db')
      | (inr a, db') => (Running (k a), db')
      end
  end.

Inductive Turn := First | Second.

Fixpoint interleave {R} (schedule : list Turn) (t1 t2 : Thread R) (db : DB)
    : Thread R * Thread R * DB :=
  match schedule with
  | [] => (t1, t2, db)
  | First :: schedule' =>
      let '(t1', db') := advance t1 db in interleave schedule' t1' t2 db'
  | Second :: schedule' =>
      let '(t2', db') := advance t2 db in interleave schedule' t1 t2' db'
  end.

(** ** Consistency of the circulation tables *)

(** The open issues of a book: the rows of the issue table with that
    book_id and returned_date = null. *)
Definition is_open_for (book_id : string) (r : string * BookIssue.t)
    : Prop :=
  BookIssue.returned_date r.2 = None ∧ BookIssue.book_id r.2 = book_id.

#[global] Instance is_open_for_dec book_id r : Decision (is_open_for book_id r).
Proof. unfold is_open_for. apply _. Defined.

Definition open_issues (issues : gmap string BookIssue.t) (book_id : string)
    : list (string * BookIssue.t) :=
  filter (is_open_for book_id) (map_to_list issues).

(** No book_id has two open issues, and a book is ISSUED exactly when it
    has one. *)
Definition consistent (db : DB) : Prop :=
  ∀ book_id,
    (length (open_issues (bookIssue db) book_id) ≤ 1)%nat
    ∧ ∀ b, book db !! book_id = Some b →
           (Book.status b = ISSUED
            ↔ length (open_issues (bookIssue db) book_id) = 1%nat).

(** One circulation request served from start to end. *)
Inductive circulation_step : DB → DB → Prop :=
| step_issueBook g body db :
    circulation_step db (asyncHandler (issueBook g body) db).2
| step_returnBook g body db :
    circulation_step db (asyncHandler (returnBook g body) db).2.

(** What returnBook is asked to look for: an open issue that agrees with
    every selector given. *)
Definition selected (body : ReturnBody) (r : string * BookIssue.t) : Prop :=
  BookIssue.returned_date r.2 = None
  ∧ (∀ i, return_issue_id body = Some i → r.1 = i)
  ∧ (∀ b, return_book_id body = Some b → BookIssue.book_id r.2 = b).

(** Stores used in the examples below. *)
Definition a_book (s : BookStatus) : Book.t :=
  Book.mk "Dune" "Herbert" "SF" 1965 "A1" s 0.
Definition a_user : User.t := User.mk "Ann" "ann@lib" None USER 0 None.
Definition a_job (s : PaymentStatus) : PrintJob.t :=
  PrintJob.mk "U1" "notes.pdf" "1_notes.pdf" 10 2 20 s 0.

Definition library0 : DB :=
  mkDB {[ "B1" := a_book AVAILABLE ]} {[ "U1" := a_user; "U2" := a_user ]}
       ∅ {[ "P1" := a_job PENDING ]} ∅.

(** The row issueBook creates, and the [where] returnBook builds. *)
Definition issued (g : Gen) (body : IssueBody) : BookIssue.t :=
  BookIssue.mk (issue_book_id body) (issue_user_id body) (now g)
               (issue_due_date body) None.

Definition return_where (body : ReturnBody) : BookIssueWhere :=
  mkWhere true
    (if truthy (return_issue_id body) then return_issue_id body else None)
    (if truthy (return_book_id body) then return_book_id body else None).

Definition an_issue : BookIssue.t := BookIssue.mk "B1" "U1" 10 99 None.

(** [library0] after B1 went out to U1, with a second book on the shelf. *)
Definition library1 : DB :=
  mkDB {[ "B1" := a_book ISSUED; "B2" := a_book AVAILABLE ]}
       {[ "U1" := a_user; "U2" := a_user ]}
       {[ "I1" := an_issue ]} {[ "P1" := a_job PENDING ]} ∅.

Fixpoint all_unreserved (s : string) : bool :=
  match s with
  | "" => true
  | String c s' => unreserved c && all_unreserved s'
  end.

(** The row initiate creates. *)
Definition initiated (g : Gen) (auth : JwtUser) (body : InitiateBody)
    : Payment.t :=
  Payment.mk (userId auth) (initiate_print_id body)
             (initiate_payment_method body) None PENDING None (now g).

(** [library0] after U1 opened payment PA1 for print job P1. *)
Definition a_payment : Payment.t :=
  Payment.mk "U1" "P1" UPI None PENDING None 10.

Definition library2 : DB :=
  mkDB {[ "B1" := a_book AVAILABLE ]} {[ "U1" := a_user; "U2" := a_user ]}
       ∅ {[ "P1" := a_job PENDING ]} {[ "PA1" := a_payment ]}.

(** ... and after that payment was verified as paid. *)
Definition library3 : DB :=
  mkDB {[ "B1" := a_book AVAILABLE ]} {[ "U1" := a_user; "U2" := a_user ]}
       ∅ {[ "P1" := a_job SUCCESS ]}
       {[ "PA1" := Payment.mk "U1" "P1" UPI (Some "TXN123") SUCCESS (Some 20) 10 ]}.




(** ** The reading routes of routes/books.ts *)

(** [findFirst] with [include: { user: true }]: user is a required
    relation of an issue. *)
Definition bookIssue_findFirst_include_user (w : BookIssueWhere)
    : Prisma (option (string * BookIssue.t * User.t)) :=
  λ db, match first_issued_date_desc
                (filter (λ r, matches w r = true)
                        (map_to_list (bookIssue db))) with
        | None => (inr None, db)
        | Some r =>
            match user db !! BookIssue.user_id r.2 with
            | None => (inl InconsistentQueryResult, db)
            | Some u => (inr (Some (r, u)), db)
            end
        end.

Record IssuedJson := mkIssuedJson {
  issued_issue_id : string;
  issued_borrower_name : string;
  issued_borrower_email : string;
  issued_due_date : Date;
  issued_issued_date : Date }.

Record BookJson := mkBookJson {
  bj_book_id : string;
  bj_book : Book.t;
  bj_issued : option IssuedJson }.

(** GET /books/:id. *)
Definition getBook (bookId : string) : Handler (Response BookJson) :=
  await book ← book_findUnique bookId;
  match book with
  | None => Return (error 404 "Book not found")
  | Some book =>
      await activeIssue ← bookIssue_findFirst_include_user
                            (mkWhere true None (Some bookId));
      Return (json 200
        (mkBookJson bookId book
           match activeIssue with
           | Some (issue, user) =>
               Some (mkIssuedJson issue.1 (User.name user) (User.email user)
                       (BookIssue.due_date issue.2)
                       (BookIssue.issued_date issue.2))
           | None => None
           end))
  end.

(** [orderBy: { issued_date: 'desc' }] on a whole result: later issues
    first, equal dates in no particular order. *)
Definition issued_date_desc (x y : string * BookIssue.t) : Prop :=
  BookIssue.issued_date y.2 ≤ BookIssue.issued_date x.2.

#[global] Instance issued_date_desc_dec x y : Decision (issued_date_desc x y).
Proof. unfold issued_date_desc. apply _. Defined.

(** [findMany] with [include: { book: true, user: true }]. *)
Definition bookIssue_findMany_include_book_user (w : BookIssueWhere)
    : Prisma (list (string * BookIssue.t * Book.t * User.t)) :=
  λ db, match mapM (λ r : string * BookIssue.t,
                      match book db !! BookIssue.book_id r.2,
                            user db !! BookIssue.user_id r.2 with
                      | Some b, Some u => Some (r, b, u)
                      | _, _ => None
                      end)
                   (merge_sort issued_date_desc
                      (filter (λ r, matches w r = true)
                              (map_to_list (bookIssue db)))) with
        | None => (inl InconsistentQueryResult, db)
        | Some rows => (inr rows, db)
        end.

Record IssuedItem := mkIssuedItem {
  ii_issue_id : string;
  ii_issued_date : Date;
  ii_due_date : Date;
  ii_book_id : string;
  ii_book_name : string;
  ii_author_name : string;
  ii_category : string;
  ii_user_id : string;
  ii_name : string;
  ii_email : string }.

(** The [book: { book_id: i.book.book_id, ... }] and [borrower] of an
    item name the rows the issue points at. *)
Definition issued_item (i : string * BookIssue.t * Book.t * User.t)
    : IssuedItem :=
  let '(issue, book, user) := i in
  mkIssuedItem issue.1 (BookIssue.issued_date issue.2)
    (BookIssue.due_date issue.2)
    (BookIssue.book_id issue.2) (Book.book_name book)
    (Book.author_name book) (Book.category book)
    (BookIssue.user_id issue.2) (User.name user) (User.email user).

(** GET /books/issued. *)
Definition listIssued : Handler (Response (list IssuedItem)) :=
  await issues ← bookIssue_findMany_include_book_user (mkWhere true None None);
  Return (json 200 (issued_item <$> issues)).

(** PUT /books/:id.  The body went through [createBookSchema.partial()]:
    any of the five catalogue fields, and nothing else. *)
Record UpdateBookBody := mkUpdateBookBody {
  upd_book_name : option string;
  upd_author_name : option string;
  upd_category : option string;
  upd_publication_year : option Z;
  upd_library_location : option string }.

Definition updateBookSchema (b : UpdateBookBody) : bool :=
  min1_optional (upd_book_name b)
  && min1_optional (upd_author_name b)
  && min1_optional (upd_category b)
  && match upd_publication_year b with
     | Some y => bool_decide (0 ≤ y)
     | None => true
     end
  && min1_optional (upd_library_location b).

Definition update_data (data : UpdateBookBody) (b : Book.t) : Book.t :=
  Book.mk (default (Book.book_name b) (upd_book_name data))
          (default (Book.author_name b) (upd_author_name data))
          (default (Book.category b) (upd_category data))
          (default (Book.publication_year b) (upd_publication_year data))
          (default (Book.library_location b) (upd_library_location data))
          (Book.status b) (Book.created_at b).

Definition updateBook (id : string) (body : UpdateBookBody)
    : Handler (Response (string * Book.t)) :=
  await updated ← book_update id (update_data body);
  Return (json 200 (id, updated)).

Definition PUT_books (cred : Credential) (id : string)
    (body : UpdateBookBody) : Handler (Response (string * Book.t)) :=
  requireAuth cred (λ auth,
    requireRole [LIBRARY_ADMIN; SUPER_ADMIN] (Some auth)
      (validateBody updateBookSchema body (updateBook id))).

Definition GET_books_issued (cred : Credential)
    : Handler (Response (list IssuedItem)) :=
  requireAuth cred (λ auth,
    requireRole [LIBRARY_ADMIN; SUPER_ADMIN] (Some auth) listIssued).

(** ** The dashboard of routes/admin.ts *)

Record Stats := mkStats {
  stats_books : nat;
  stats_users : nat;
  stats_activeIssues : nat;
  stats_pendingPrints : nat;
  stats_payments : nat }.

Definition book_count : Prisma nat := λ db, (inr (size (book db)), db).
Definition user_count : Prisma nat := λ db, (inr (size (user db)), db).
Definition payment_count : Prisma nat := λ db, (inr (size (payment db)), db).

(** [count({ where: { returned_date: null } })]. *)
Definition bookIssue_count (w : BookIssueWhere) : Prisma nat :=
  λ db, (inr (length (filter (λ r, matches w r = true)
                             (map_to_list (bookIssue db)))), db).

(** [count({ where: { payment_status } })]. *)
Definition printJob_count (payment_status : PaymentStatus) : Prisma nat :=
  λ db, (inr (length (filter (λ r : string * PrintJob.t,
                                PrintJob.payment_status r.2 = payment_status)
                             (map_to_list (printJob db)))), db).

(** GET /admin/dashboard.  The five counts of [Promise.all] are awaited
    as one. *)
Definition dashboard : Handler (Response Stats) :=
  await all ← (books <- book_count ;;
               users <- user_count ;;
               activeIssues <- bookIssue_count (mkWhere true None None) ;;
               pendingPrints <- printJob_count PENDING ;;
               payments <- payment_count ;;
               ret (books, users, activeIssues, pendingPrints, payments))%prisma;
  let '(books, users, activeIssues, pendingPrints, payments) := all in
  Return (json 200 (mkStats books users activeIssues pendingPrints payments)).

(** Every issue row points at a book and a user of the store. *)
Definition referential (db : DB) : Prop :=
  ∀ id i, bookIssue db !! id = Some i →
          is_Some (book db !! BookIssue.book_id i)
          ∧ is_Some (user db !! BookIssue.user_id i).

(** ** Print jobs (routes/print.ts) *)

(** The name multer stores an upload under:
    [file.originalname.replace(/[^a-zA-Z0-9._-]/g, '_')] behind the
    upload time.  multer hands over originalname one byte per character. *)
Definition safe_char (c : ascii) : bool :=
  let n := nat_of_ascii c in
  ((48 <=? n) && (n <=? 57) || (65 <=? n) && (n <=? 90)
   || (97 <=? n) && (n <=? 122)
   || (n =? 46) || (n =? 95) || (n =? 45))%nat.

Fixpoint safeName (originalname : string) : string :=
  match originalname with
  | "" => ""
  | String c rest => String (if safe_char c then c else "_"%char) (safeName rest)
  end.

Definition multer_filename (date_now : Date) (originalname : string)
    : string :=
  pretty date_now +:+ "_" +:+ safeName originalname.

Record File := mkFile {
  originalname : string;
  filename : string }.

(** [upload.single('file')]: the file part of the request, if any, as
    [req.file]; for a part sent under the field name file and within the
    15 MB of [limits.fileSize] (multer fails on any other, before the
    handler runs). *)
Definition upload_single (date_now : Date) (part : option string)
    : option File :=
  (λ name, mkFile name (multer_filename date_now name)) <$> part.

Fixpoint string_forall (P : ascii → bool) (s : string) : bool :=
  match s with
  | "" => true
  | String c s' => P c && string_forall P s'
  end.

Record UploadBody := mkUploadBody {
  upload_total_pages : Z;
  upload_cost_per_page : option Z }.

(** [uploadSchema] on figures already coerced to integers ([coerce]
    below does that): both at least 1, the second 2 when absent; the
    parsed pair, or nothing. *)
Definition uploadSchema (b : UploadBody) : option (Z * Z) :=
  let cost_per_page := default 2 (upload_cost_per_page b) in
  if bool_decide (1 ≤ upload_total_pages b) && bool_decide (1 ≤ cost_per_page)
  then Some (upload_total_pages b, cost_per_page)
  else None.

Definition printJob_create (generated_id : string) (data : PrintJob.t)
    : Prisma (string * PrintJob.t) :=
  λ db, match printJob db !! generated_id with
        | Some _ => (inl UniqueConstraintFailed, db)
        | None => (inr (generated_id, data),
                   with_printJob <[generated_id := data]> db)
        end.

(** The [print_job] object of the print routes. *)
Record PrintJobJson := mkPrintJobJson {
  pj_print_id : string;
  pj_file_name : string;
  pj_total_pages : Z;
  pj_cost_per_page : Z;
  pj_total_cost : Z;
  pj_payment_status : PaymentStatus;
  pj_created_at : Date }.

Definition print_job (job : string * PrintJob.t) : PrintJobJson :=
  mkPrintJobJson job.1 (PrintJob.file_name job.2) (PrintJob.total_pages job.2)
    (PrintJob.cost_per_page job.2) (PrintJob.total_cost job.2)
    (PrintJob.payment_status job.2) (PrintJob.created_at job.2).

(** POST /print/upload.  The numbers are doubles: the product below is
    the exact product as long as it is a safe integer (below 2^53). *)
Definition upload (g : Gen) (auth : JwtUser) (body : UploadBody)
    (file : option File) : Handler (Response PrintJobJson) :=
  match uploadSchema body with
  | None => Return (error 400 "Invalid upload data")
  | Some (total_pages, cost_per_page) =>
      match file with
      | None => Return (error 400 "Missing file")
      | Some file =>
          let totalCost := total_pages * cost_per_page in
          await job ← printJob_create (generated_id g)
                        (PrintJob.mk (userId auth) (originalname file)
                           (filename file) total_pages cost_per_page
                           totalCost PENDING (now g));
          Return (json 201 (print_job job))
      end
  end.

(** What [z.coerce.number()] makes of a form field: [Number(field)] is a
    finite double m * 2^e, NaN or an infinity.  A field that is not a
    numeral ("abc") is NaN, and so is a field left out where no default
    applies ([Number(undefined)]). *)
Inductive Num :=
  | NaN
  | Infinity (negative : bool)
  | Double (m e : Z).

(** [.int()], zod's [Number.isInteger] check, with the integer. *)
Definition integer_value (n : Num) : option Z :=
  match n with
  | Double m e =>
      if bool_decide (0 ≤ e) then Some (m * 2 ^ e)
      else if bool_decide (m `mod` 2 ^ (- e) = 0) then Some (m `div` 2 ^ (- e))
      else None
  | _ => None
  end.

(** [req.body] of an upload.  [.default(2)] takes over before the coercion
    when cost_per_page is left out. *)
Record UploadForm := mkUploadForm {
  form_total_pages : Num;
  form_cost_per_page : option Num }.

(** The coercion of the two fields to integers, [z.coerce.number().int()]. *)
Definition coerce (form : UploadForm) : option UploadBody :=
  match integer_value (form_total_pages form), form_cost_per_page form with
  | Some total_pages, None => Some (mkUploadBody total_pages None)
  | Some total_pages, Some n =>
      (λ cost_per_page, mkUploadBody total_pages (Some cost_per_page))
        <$> integer_value n
  | None, _ => None
  end.

(** [uploadSchema.safeParse(req.body)]: the coercion, then the bounds. *)
Definition safeParse (form : UploadForm) : option (Z * Z) :=
  coerce form ≫= uploadSchema.

(** POST /print/upload on the form as it arrives. *)
Definition upload_request (g : Gen) (auth : JwtUser) (form : UploadForm)
    (file : option File) : Handler (Response PrintJobJson) :=
  match coerce form with
  | None => Return (error 400 "Invalid upload data")
  | Some body => upload g auth body file
  end.

(** A figure the schema lets through, and a figure within the safe
    integers (on these every version of the [int] check agrees). *)
Definition valid_figure (n : Num) : Prop :=
  ∃ z, integer_value n = Some z ∧ 1 ≤ z.

Definition safe_figure (n : Num) : Prop :=
  ∀ z, integer_value n = Some z → Z.abs z < 2 ^ 53.

Definition valid_form (form : UploadForm) : Prop :=
  valid_figure (form_total_pages form)
  ∧ ∀ n, form_cost_per_page form = Some n → valid_figure n.

Definition safe_form (form : UploadForm) : Prop :=
  safe_figure (form_total_pages form)
  ∧ ∀ n, form_cost_per_page form = Some n → safe_figure n.

(** POST /print/preview. *)
Definition preview (auth : JwtUser) (print_id : string)
    : Handler (Response PrintJobJson) :=
  await job ← printJob_findUnique print_id;
  match job with
  | None => Return (error 404 "Print job not found")
  | Some job =>
      if bool_decide (PrintJob.user_id job ≠ userId auth)
      then Return (error 403 "Forbidden")
      else Return (json 200 (print_job (print_id, job)))
  end.

(** POST /print/confirm: [{ ok: true, print_id }]. *)
Definition confirm (auth : JwtUser) (print_id : string)
    : Handler (Response (bool * string)) :=
  await job ← printJob_findUnique print_id;
  match job with
  | None => Return (error 404 "Print job not found")
  | Some job =>
      if bool_decide (PrintJob.user_id job ≠ userId auth)
      then Return (error 403 "Forbidden")
      else Return (json 200 (true, print_id))
  end.

(** [orderBy: { created_at: 'desc' }]. *)
Definition created_at_desc (x y : string * PrintJob.t) : Prop :=
  PrintJob.created_at y.2 ≤ PrintJob.created_at x.2.

#[global] Instance created_at_desc_dec x y : Decision (created_at_desc x y).
Proof. unfold created_at_desc. apply _. Defined.

(** [findMany({ where: { user_id }, orderBy: { created_at: 'desc' } })]. *)
Definition printJob_findMany (user_id : string)
    : Prisma (list (string * PrintJob.t)) :=
  λ db, (inr (merge_sort created_at_desc
                (filter (λ r : string * PrintJob.t,
                           PrintJob.user_id r.2 = user_id)
                        (map_to_list (printJob db)))), db).

(** GET /print/history. *)
Definition history (auth : JwtUser) : Handler (Response (list PrintJobJson)) :=
  await jobs ← printJob_findMany (userId auth);
  Return (json 200 (print_job <$> jobs)).

(** The upload route: the credential, then the file, then the handler. *)
Definition POST_print_upload (g : Gen) (date_now : Date) (cred : Credential)
    (form : UploadForm) (part : option string)
    : Handler (Response PrintJobJson) :=
  requireAuth cred
    (λ auth, upload_request g auth form (upload_single date_now part)).

(** ** Reading a form-urlencoded value back *)

(** What the receiver of the URI does with a value: [+] is a space,
    [%XX] is the byte XX, anything else stands for itself. *)
Definition hex_value (c : ascii) : option nat :=
  let n := nat_of_ascii c in
  if (48 <=? n)%nat && (n <=? 57)%nat then Some (n - 48)%nat
  else if (65 <=? n)%nat && (n <=? 70)%nat then Some (n - 55)%nat
  else if (97 <=? n)%nat && (n <=? 102)%nat then Some (n - 87)%nat
  else None.

Fixpoint urldecode (s : string) : string :=
  match s with
  | "" => ""
  | String c rest =>
      if bool_decide (c = "+"%char) then String " " (urldecode rest)
      else if bool_decide (c = "%"%char) then
        match rest with
        | String h (String l rest') =>
            match hex_value h, hex_value l with
            | Some hi, Some lo =>
                String (ascii_of_nat (16 * hi + lo)) (urldecode rest')
            | _, _ => String c (urldecode rest)
            end
        | _ => String c (urldecode rest)
        end
      else String c (urldecode rest)
  end.

(** ** The bearer token (middleware/auth.ts) *)

(** [s.split(sep)] for a one-character separator: the pieces between the
    separators, at least one piece. *)
Fixpoint split (sep : ascii) (s : string) : list string :=
  match s with
  | "" => [""]
  | String c rest =>
      if bool_decide (c = sep) then "" :: split sep rest
      else match split sep rest with
           | piece :: pieces => String c piece :: pieces
           | [] => [String c ""]
           end
  end.

(** [pieces.join(sep)], and the characters other than the separator. *)
Fixpoint join (sep : ascii) (pieces : list string) : string :=
  match pieces with
  | [] => ""
  | [p] => p
  | p :: rest => p +:+ String sep (join sep rest)
  end.

Definition not_char (sep c : ascii) : bool := negb (bool_decide (c = sep)).

(** [toLowerCase] on A-Z.  It is only ever compared with a word of a-z or
    applied to a validated e-mail address, where no other letter counts. *)
Definition lower (c : ascii) : ascii :=
  let n := nat_of_ascii c in
  if (65 <=? n)%nat && (n <=? 90)%nat then ascii_of_nat (n + 32) else c.

Fixpoint toLowerCase (s : string) : string :=
  match s with
  | "" => ""
  | String c rest => String (lower c) (toLowerCase rest)
  end.

Definition extractTokenFromRequest (authorization : option string)
    : option string :=
  match authorization with
  | None => None
  | Some header =>
      if bool_decide (header = "") then None
      else
        match split " " header with
        | scheme :: pieces =>
            let token := head pieces in
            if negb (bool_decide (toLowerCase scheme = "bearer"))
               || negb (truthy token)
            then None
            else token
        | [] => None
        end
  end.

(** [requireAuth] before the credential is known: [verifyAccessToken] is
    the identity provider, which either throws or hands back the payload. *)
Definition credential (verifyAccessToken : string → option JwtUser)
    (authorization : option string) : Credential :=
  match extractTokenFromRequest authorization with
  | None => NoToken
  | Some token =>
      match verifyAccessToken token with
      | None => BadToken
      | Some payload => Token payload
      end
  end.

(** What the page of public/main.js sends with a request. *)
Definition authorization_header (token : option string) : option string :=
  if truthy token then (λ t, "Bearer " +:+ t) <$> token else None.

(** ** Passwords (utils/password.ts) *)

Definition Buffer := list ascii.

Definition hex_digit_lower (n : nat) : ascii :=
  match n with
  | 0 => "0" | 1 => "1" | 2 => "2" | 3 => "3" | 4 => "4" | 5 => "5"
  | 6 => "6" | 7 => "7" | 8 => "8" | 9 => "9" | 10 => "a" | 11 => "b"
  | 12 => "c" | 13 => "d" | 14 => "e" | _ => "f"
  end%char%nat.

(** [buffer.toString('hex')]. *)
Fixpoint toString_hex (b : Buffer) : string :=
  match b with
  | [] => ""
  | c :: rest =>
      let n := nat_of_ascii c in
      String (hex_digit_lower (n / 16))
        (String (hex_digit_lower (n mod 16)) (toString_hex rest))
  end.

(** [Buffer.from(s, 'hex')]: pairs of hex digits, up to the first pair
    that is not one; an odd last character is dropped. *)
Fixpoint Buffer_from_hex (s : string) : Buffer :=
  match s with
  | String h (String l rest) =>
      match hex_value h, hex_value l with
      | Some hi, Some lo => ascii_of_nat (16 * hi + lo) :: Buffer_from_hex rest
      | _, _ => []
      end
  | _ => []
  end.

(** [crypto.timingSafeEqual]: it throws on buffers of different lengths. *)
Definition timingSafeEqual (a b : Buffer) : option bool :=
  if bool_decide (length a = length b) then Some (bool_decide (a = b))
  else None.

Definition KEY_LEN : nat := 64.

Section password.
(** [crypto.scrypt(password, salt, keylen)], the key derivation of the
    platform. *)
Variable scrypt : string → string → nat → Buffer.

(** [hashPassword], given the 16 bytes of [crypto.randomBytes(16)]. *)
Definition hashPassword (randomBytes16 : Buffer) (password : string)
    : string :=
  let salt := toString_hex randomBytes16 in
  let derivedKey := scrypt password salt KEY_LEN in
  salt +:+ ":" +:+ toString_hex derivedKey.

(** [verifyPassword]: true or false, or nothing when it throws. *)
Definition verifyPassword (password hash : string) : option bool :=
  match split ":" hash with
  | salt :: pieces =>
      let key := head pieces in
      if bool_decide (salt = "") || negb (truthy key) then Some false
      else
        let derivedKey := scrypt password salt KEY_LEN in
        timingSafeEqual (Buffer_from_hex (default "" key)) derivedKey
  | [] => Some false
  end.
End password.

(** ** Accounts (routes/auth.ts) *)

Definition with_user (f : gmap string User.t → gmap string User.t)
    (db : DB) : DB :=
  mkDB (book db) (f (user db)) (bookIssue db) (printJob db) (payment db).

(** Modelled from the spec: the schema is not part of the sources;
    section 3 of the specification makes the e-mail column of User
    unique.  The rows of the user table with a given e-mail address: at
    most one where that holds. *)
Definition users_with_email (email : string) (db : DB)
    : list (string * User.t) :=
  filter (λ r : string * User.t, User.email r.2 = email)
         (map_to_list (user db)).

(** [findUnique({ where: { email } })]. *)
Definition user_findUnique_email (email : string)
    : Prisma (option (string * User.t)) :=
  λ db, (inr (head (users_with_email email db)), db).

(** [create]: refused when the generated key or the e-mail address is
    taken. *)
Definition user_create (generated_id : string) (data : User.t)
    : Prisma (string * User.t) :=
  λ db, match user db !! generated_id,
              users_with_email (User.email data) db with
        | None, [] => (inr (generated_id, data),
                       with_user <[generated_id := data]> db)
        | _, _ => (inl UniqueConstraintFailed, db)
        end.

Definition user_update (user_id : string) (data : User.t → User.t)
    : Prisma (string * User.t) :=
  λ db, match user db !! user_id with
        | None => (inl RecordNotFound, db)
        | Some u => (inr (user_id, data u),
                     with_user <[user_id := data u]> db)
        end.

(** [count({ where: { role } })]. *)
Definition user_count_role (r : Role) : Prisma nat :=
  λ db, (inr (length (filter (λ x : string * User.t, User.role x.2 = r)
                             (map_to_list (user db)))), db).

Definition set_last_login (d : option Date) (u : User.t) : User.t :=
  User.mk (User.name u) (User.email u) (User.password u) (User.role u)
          (User.created_at u) d.

(** [publicUser]: the row without its password. *)
Record PublicUser := mkPublicUser {
  pu_user_id : string;
  pu_name : string;
  pu_email : string;
  pu_role : Role;
  pu_created_at : Date;
  pu_last_login : option Date }.

Definition publicUser (u : string * User.t) : PublicUser :=
  mkPublicUser u.1 (User.name u.2) (User.email u.2) (User.role u.2)
               (User.created_at u.2) (User.last_login u.2).

Record AuthJson := mkAuthJson {
  auth_token : string;
  auth_user : PublicUser }.

Record BootstrapBody := mkBootstrapBody {
  bootstrap_name : string;
  bootstrap_email : string;
  bootstrap_password : string }.

(** The body of a password login: [provider: 'password'], an e-mail
    address, a password and perhaps a name. *)
Record LoginBody := mkLoginBody {
  login_email : string;
  login_password : string;
  login_name : option string }.

Section accounts.
Variable scrypt : string → string → nat → Buffer.
(** [signAccessToken], the identity provider issuing a token. *)
Variable signAccessToken : JwtUser → string.

(** POST /auth/bootstrap-super-admin.  The 16 random bytes are those
    [hashPassword] draws for the salt. *)
Definition bootstrap_super_admin (g : Gen) (randomBytes16 : Buffer)
    (body : BootstrapBody) : Handler (Response AuthJson) :=
  await existing ← user_count_role SUPER_ADMIN;
  if bool_decide (0 < existing)%nat
  then Return (error 409
                 "SUPER_ADMIN already exists. Bootstrap endpoint disabled.")
  else
    await user ← user_create (generated_id g)
                   (User.mk (bootstrap_name body)
                      (toLowerCase (bootstrap_email body))
                      (Some (hashPassword scrypt randomBytes16
                               (bootstrap_password body)))
                      SUPER_ADMIN (now g) (Some (now g)));
    let token := signAccessToken (mkJwtUser user.1 (User.role user.2)) in
    Return (json 201 (mkAuthJson token (publicUser user))).

(** POST /auth/login with a password body.  Where [verifyPassword]
    throws, the handler rejects and the error middleware answers 500. *)
Definition login (g : Gen) (randomBytes16 : Buffer) (body : LoginBody)
    : Handler (Response AuthJson) :=
  let email := toLowerCase (login_email body) in
  await existing ← user_findUnique_email email;
  match existing with
  | None =>
      await created ← user_create (generated_id g)
                        (User.mk
                           (default (default "User" (head (split "@" email)))
                                    (login_name body))
                           email
                           (Some (hashPassword scrypt randomBytes16
                                    (login_password body)))
                           USER (now g) (Some (now g)));
      let token := signAccessToken (mkJwtUser created.1 (User.role created.2)) in
      Return (json 201 (mkAuthJson token (publicUser created)))
  | Some existing =>
      if negb (truthy (User.password existing.2))
      then Return (error 400
        "Account exists but does not have a password set. Use Google login or contact admin.")
      else
        match verifyPassword scrypt (login_password body)
                (default "" (User.password existing.2)) with
        | None => Return (error 500 "Internal server error")
        | Some false => Return (error 401 "Invalid email or password")
        | Some true =>
            await user ← user_update existing.1 (set_last_login (Some (now g)));
            let token := signAccessToken (mkJwtUser user.1 (User.role user.2)) in
            Return (json 200 (mkAuthJson token (publicUser user)))
        end
  end.
End accounts.

(** No two rows of the user table share an e-mail address. *)
Definition unique_emails (db : DB) : Prop :=
  ∀ id1 id2 u1 u2,
    user db !! id1 = Some u1 → user db !! id2 = Some u2 →
    User.email u1 = User.email u2 → id1 = id2.

(** A store with one account. *)
Definition registry0 : DB := mkDB ∅ {[ "U1" := a_user ]} ∅ ∅ ∅.

(** ** Every request that writes *)

(** One request of any of the writing routes modelled above, served from
    start to end. *)
Inductive api_step (scrypt : string → string → nat → Buffer)
    (signAccessToken : JwtUser → string) : DB → DB → Prop :=
| api_issueBook g body db :
    api_step scrypt signAccessToken db (asyncHandler (issueBook g body) db).2
| api_returnBook g body db :
    api_step scrypt signAccessToken db (asyncHandler (returnBook g body) db).2
| api_updateBook id body db :
    api_step scrypt signAccessToken db (asyncHandler (updateBook id body) db).2
| api_initiate env g auth body db :
    api_step scrypt signAccessToken db
      (asyncHandler (initiate env g auth body) db).2
| api_verify g auth body db :
    api_step scrypt signAccessToken db (asyncHandler (verify g auth body) db).2
| api_upload g auth body file db :
    api_step scrypt signAccessToken db
      (asyncHandler (upload g auth body file) db).2
| api_login g salt body db :
    api_step scrypt signAccessToken db
      (asyncHandler (login scrypt signAccessToken g salt body) db).2
| api_bootstrap g salt body db :
    api_step scrypt signAccessToken db
      (asyncHandler (bootstrap_super_admin scrypt signAccessToken g salt body)
         db).2.
(** * Properties *)

(** ** The query [findFirst ... orderBy issued_date desc] *)

Lemma first_issued_date_desc_None rows :
  first_issued_date_desc rows = None ↔ rows = [].
Proof.
  destruct rows as [|r rows]; [done|]. simpl. split; [|done].
  unfold later. destruct (first_issued_date_desc rows); [|done].
  by case_match.
Qed.

Lemma first_issued_date_desc_Some rows r :
  first_issued_date_desc rows = Some r →
  r ∈ rows
  ∧ ∀ r', r' ∈ rows →
          (BookIssue.issued_date r'.2 ≤ BookIssue.issued_date r.2)%Z.
Proof.
  revert r. induction rows as [|x rows IH]; intros r; [done|].
  simpl. unfold later at 1.
  destruct (first_issued_date_desc rows) as [m|] eqn:Hm.
  - destruct (IH m eq_refl) as [Hin Hmax].
    destruct (Z.ltb_spec (BookIssue.issued_date m.2) (BookIssue.issued_date x.2));
      intros [= <-].
    + split; [left|]. intros r' [->|Hr']%elem_of_cons; [lia|].
      specialize (Hmax r' Hr'). lia.
    + split; [by right|]. intros r' [->|Hr']%elem_of_cons; [lia|by apply Hmax].
  - apply first_issued_date_desc_None in Hm as ->. intros [= <-].
    split; [left|]. by intros r' ->%list_elem_of_singleton.
Qed.

(** ** Counting open issues under writes to the issue table *)

Section open_issues.
Implicit Types (issues : gmap string BookIssue.t) (i : BookIssue.t).

Lemma open_issues_insert_fresh issues id i book_id :
  issues !! id = None →
  length (open_issues (<[id := i]> issues) book_id)
  = ((if decide (is_open_for book_id (id, i)) then 1 else 0)
     + length (open_issues issues book_id))%nat.
Proof.
  intros Hfresh. unfold open_issues.
  rewrite (map_to_list_insert _ _ _ Hfresh), filter_cons.
  by destruct (decide (is_open_for book_id (id, i))).
Qed.

Lemma open_issues_delete issues id i book_id :
  issues !! id = Some i →
  length (open_issues issues book_id)
  = ((if decide (is_open_for book_id (id, i)) then 1 else 0)
     + length (open_issues (delete id issues) book_id))%nat.
Proof.
  intros Hin. unfold open_issues at 1.
  rewrite <-(map_to_list_delete _ _ _ Hin), filter_cons.
  by destruct (decide (is_open_for book_id (id, i))).
Qed.

Lemma open_issues_overwrite issues id i i' book_id :
  issues !! id = Some i →
  (length (open_issues (<[id := i']> issues) book_id)
   + (if decide (is_open_for book_id (id, i)) then 1 else 0))%nat
  = ((if decide (is_open_for book_id (id, i')) then 1 else 0)
     + length (open_issues issues book_id))%nat.
Proof.
  intros Hin. rewrite <-insert_delete_eq.
  rewrite open_issues_insert_fresh by apply lookup_delete_eq.
  rewrite (open_issues_delete issues id i book_id Hin). lia.
Qed.
End open_issues.

(** ** The two circulation handlers, case by case *)

Lemma issueBook_cases g body db :
  asyncHandler (issueBook g body) db =
  match book db !! issue_book_id body with
  | None => (error 404 "Book not found", db)
  | Some b =>
      if bool_decide (Book.status b ≠ AVAILABLE)
      then (error 409 "Book is not available", db)
      else match user db !! issue_user_id body with
           | None => (error 404 "User not found", db)
           | Some _ =>
               match bookIssue db !! generated_id g with
               | Some _ => (error 500 "Internal server error", db)
               | None =>
                   (json 201 (generated_id g, issued g body),
                    mkDB (<[issue_book_id body := Book.set_status ISSUED b]> (book db))
                         (user db)
                         (<[generated_id g := issued g body]> (bookIssue db))
                         (printJob db) (payment db))
               end
           end
  end.
Proof.
  unfold asyncHandler, issueBook. simpl.
  destruct (book db !! issue_book_id body) as [b|] eqn:Hb; [|done].
  case_bool_decide; [done|]. simpl.
  destruct (user db !! issue_user_id body) as [u|] eqn:Hu; [|done].
  simpl. unfold transaction, bind, bookIssue_create, book_update, ret.
  destruct (bookIssue db !! generated_id g) eqn:Hi; [done|].
  simpl. by rewrite Hb.
Qed.

Lemma returnBook_cases g body db :
  asyncHandler (returnBook g body) db =
  if negb (truthy (return_issue_id body)) && negb (truthy (return_book_id body))
  then (error 400 "Provide issue_id or book_id", db)
  else
    match first_issued_date_desc
            (filter (λ r, matches (return_where body) r = true)
                    (map_to_list (bookIssue db))) with
    | None => (error 404 "Active issue not found", db)
    | Some issue =>
        match bookIssue db !! issue.1, book db !! BookIssue.book_id issue.2 with
        | Some i, Some b =>
            (json 200 (issue.1, BookIssue.set_returned_date (Some (now g)) i),
             mkDB (<[BookIssue.book_id issue.2 := Book.set_status AVAILABLE b]>
                     (book db))
                  (user db)
                  (<[issue.1 := BookIssue.set_returned_date (Some (now g)) i]>
                     (bookIssue db))
                  (printJob db) (payment db))
        | _, _ => (error 500 "Internal server error", db)
        end
    end.
Proof.
  unfold asyncHandler, returnBook, return_where.
  destruct (negb (truthy (return_issue_id body))
            && negb (truthy (return_book_id body))); [done|].
  simpl.
  destruct (first_issued_date_desc _) as [issue|]; [|done].
  simpl. unfold transaction, bind, bookIssue_update, book_update, ret.
  destruct (bookIssue db !! issue.1) as [i|]; [|done]. simpl.
  by destruct (book db !! BookIssue.book_id issue.2).
Qed.

(** The return route hands the handler only bodies that passed
    [returnSchema], and only on behalf of the two admin roles. *)
Lemma POST_books_return_accepted g a body :
  role a ≠ USER → returnSchema body = true →
  POST_books_return g (Token a) body = returnBook g body.
Proof.
  intros Hrole Hv. unfold POST_books_return, requireAuth, requireRole,
    validateBody. rewrite Hv.
  rewrite bool_decide_eq_true_2; [done|].
  destruct (role a); [done|left|right; left].
Qed.

Lemma POST_books_return_rejected g cred body db :
  returnSchema body = false →
  status_code (asyncHandler (POST_books_return g cred body) db).1 ≠ 200%nat
  ∧ (asyncHandler (POST_books_return g cred body) db).2 = db.
Proof.
  intros Hv. unfold POST_books_return, requireAuth, requireRole, validateBody.
  rewrite Hv. destruct cred as [| |a]; [done..|]. by case_bool_decide.
Qed.

(** For a body that passed [returnSchema], the [where] filter says:
    open, and in agreement with each selector given. *)
Lemma truthy_validated s : min1_optional s = true → truthy s = bool_decide (is_Some s).
Proof.
  destruct s as [s|]; simpl; [|done]. by intros ->.
Qed.

Lemma return_where_validated body :
  returnSchema body = true →
  return_where body = mkWhere true (return_issue_id body) (return_book_id body).
Proof.
  intros [H1 H2]%andb_prop. unfold return_where.
  rewrite !truthy_validated by done.
  by destruct (return_issue_id body), (return_book_id body).
Qed.

Lemma matches_selected body r :
  returnSchema body = true →
  matches (return_where body) r = true ↔ selected body r.
Proof.
  intros Hv. rewrite return_where_validated by done.
  unfold matches, selected. simpl.
  destruct (return_issue_id body) as [i|], (return_book_id body) as [b|];
    rewrite !andb_true_iff, ?bool_decide_eq_true;
    intuition (simplify_eq; eauto; done).
Qed.

Lemma no_selector_validated body :
  returnSchema body = true →
  negb (truthy (return_issue_id body)) && negb (truthy (return_book_id body))
  = true
  ↔ return_issue_id body = None ∧ return_book_id body = None.
Proof.
  intros [H1 H2]%andb_prop. rewrite !truthy_validated by done.
  destruct (return_issue_id body), (return_book_id body); simpl;
    intuition done.
Qed.

(** ** C1: the circulation invariant *)

Lemma is_open_for_issued g body x :
  is_open_for x (generated_id g, issued g body) ↔ x = issue_book_id body.
Proof. unfold is_open_for, issued. simpl. intuition done. Qed.

Lemma issueBook_consistent g body db :
  consistent db → consistent (asyncHandler (issueBook g body) db).2.
Proof.
  intros Hc. rewrite issueBook_cases.
  destruct (book db !! issue_book_id body) as [b|] eqn:Hb; [|done].
  case_bool_decide as Hst; [done|].
  destruct (user db !! issue_user_id body); [|done].
  destruct (bookIssue db !! generated_id g) eqn:Hfresh; [done|].
  assert (Book.status b = AVAILABLE) as Hav by (by destruct (Book.status b)).
  intros x. simpl. rewrite open_issues_insert_fresh by done.
  destruct (Hc x) as [Hle Hiff].
  destruct (decide (x = issue_book_id body)) as [->|Hne].
  - rewrite decide_True by (by apply is_open_for_issued).
    assert (length (open_issues (bookIssue db) (issue_book_id body)) = 0%nat)
      as ->.
    { destruct (Hiff b Hb) as [_ Hback].
      destruct (length _) as [|[|n]]; [done| |lia].
      specialize (Hback eq_refl). congruence. }
    split; [done|]. rewrite lookup_insert_eq. by intros ? [= <-].
  - rewrite decide_False by (by rewrite is_open_for_issued).
    rewrite lookup_insert_ne by done. by split.
Qed.

Lemma found_issue w issues issue :
  first_issued_date_desc
    (filter (λ r, matches w r = true) (map_to_list issues)) = Some issue →
  issues !! issue.1 = Some issue.2
  ∧ matches w issue = true
  ∧ ∀ id i, issues !! id = Some i → matches w (id, i) = true →
            (BookIssue.issued_date i ≤ BookIssue.issued_date issue.2)%Z.
Proof.
  intros [[Hm Hin]%list_elem_of_filter Hmax]%first_issued_date_desc_Some.
  destruct issue as [id0 i0].
  apply elem_of_map_to_list in Hin. split_and!; [done..|].
  intros id i Hi Hmi. apply (Hmax (id, i)).
  apply list_elem_of_filter. split; [done|]. by apply elem_of_map_to_list.
Qed.

Lemma returnBook_consistent g body db :
  consistent db → consistent (asyncHandler (returnBook g body) db).2.
Proof.
  intros Hc. rewrite returnBook_cases.
  destruct (_ && _); [done|].
  destruct (first_issued_date_desc _) as [[id i0]|] eqn:Hfound; [|done].
  apply found_issue in Hfound as (Hin & Hm & _). simpl in *.
  rewrite Hin.
  destruct (book db !! BookIssue.book_id i0) as [b|] eqn:Hb; [|done].
  assert (BookIssue.returned_date i0 = None) as Hopen.
  { unfold matches, return_where in Hm. simpl in Hm.
    apply andb_prop in Hm as [[Ho%bool_decide_eq_true _]%andb_prop _]. done. }
  intros x. simpl.
  pose proof (open_issues_overwrite (bookIssue db) id i0
    (BookIssue.set_returned_date (Some (now g)) i0) x Hin) as Hcount.
  rewrite (decide_False (P := is_open_for x (id, BookIssue.set_returned_date _ _)))
    in Hcount by (by intros [? _]).
  destruct (Hc x) as [Hle Hiff].
  destruct (decide (x = BookIssue.book_id i0)) as [->|Hne].
  - rewrite decide_True in Hcount by done.
    split; [lia|]. rewrite lookup_insert_eq. intros ? [= <-]. simpl.
    split; [done|lia].
  - rewrite decide_False in Hcount by (intros [_ ?]; done).
    rewrite lookup_insert_ne by done.
    replace (length (open_issues (<[id:=_]> (bookIssue db)) x))
      with (length (open_issues (bookIssue db) x)) by lia.
    by split.
Qed.

Lemma circulation_step_consistent db db' :
  circulation_step db db' → consistent db → consistent db'.
Proof.
  intros [g body d|g body d];
    [apply issueBook_consistent|apply returnBook_consistent].
Qed.

(** C1. Starting from a consistent store, after any sequence of issueBook
    and returnBook requests, no book_id has more than one open issue, and
    every book is ISSUED exactly when it has one open issue. *)
Theorem circulation_invariant db0 db :
  consistent db0 → rtc circulation_step db0 db → consistent db.
Proof.
  intros Hc Hsteps. induction Hsteps as [|d1 d2 d3 Hstep _ IH]; [done|].
  apply IH. by eapply circulation_step_consistent.
Qed.

Lemma library0_consistent : consistent library0.
Proof.
  intros x. unfold open_issues, library0. simpl.
  rewrite map_to_list_empty. simpl. split; [lia|].
  intros b [_ <-]%lookup_singleton_Some. simpl. split; [done|lia].
Defined.

Lemma circulation_invariant_witness :
  consistent library0
  ∧ consistent
      (asyncHandler (returnBook (mkGen "I2" 20) (mkReturnBody None (Some "B1")))
         (asyncHandler (issueBook (mkGen "I1" 10) (mkIssueBody "B1" "U1" 99))
            library0).2).2.
Proof.
  split; [apply library0_consistent|].
  apply (circulation_invariant library0); [apply library0_consistent|].
  eapply rtc_l; [apply step_issueBook|].
  eapply rtc_l; [apply step_returnBook|]. apply rtc_refl.
Defined.

(** ** C2, C9: the failures of issueBook *)

(** C2, as stated, fails: for a user that does not exist the answer is not
    always NotFound.  Book B1 is ISSUED and user U9 is unknown; the
    answer is Conflict. *)
Lemma issueBook_unknown_user_not_always_NotFound :
  user library1 !! "U9" = None
  ∧ kind_of (asyncHandler (issueBook (mkGen "I2" 20) (mkIssueBody "B1" "U9" 99))
               library1).1 = Some Conflict.
Proof. split; reflexivity. Qed.

(** C2, amended. issueBook answers NotFound when the book does not exist,
    Conflict when the book exists and is not AVAILABLE, NotFound when the
    book is AVAILABLE and the user does not exist; and whenever the answer
    is not the 201 of a committed issue, the store is as it was: no
    BookIssue row was created and no Book status changed. *)
Theorem issueBook_failures g body db :
  (book db !! issue_book_id body = None →
   kind_of (asyncHandler (issueBook g body) db).1 = Some NotFound)
  ∧ (∀ b, book db !! issue_book_id body = Some b →
          Book.status b ≠ AVAILABLE →
          kind_of (asyncHandler (issueBook g body) db).1 = Some Conflict)
  ∧ (∀ b, book db !! issue_book_id body = Some b →
          Book.status b = AVAILABLE →
          user db !! issue_user_id body = None →
          kind_of (asyncHandler (issueBook g body) db).1 = Some NotFound)
  ∧ (status_code (asyncHandler (issueBook g body) db).1 ≠ 201%nat →
     (asyncHandler (issueBook g body) db).2 = db).
Proof.
  rewrite issueBook_cases. split_and!.
  - by intros ->.
  - intros b -> Hst. by rewrite bool_decide_eq_true_2.
  - intros b -> Hst ->. by rewrite bool_decide_eq_false_2 by (by rewrite Hst; intros []).
  - destruct (book db !! issue_book_id body) as [b|]; [|done].
    case_bool_decide; [done|].
    destruct (user db !! issue_user_id body); [|done].
    by destruct (bookIssue db !! generated_id g).
Qed.

(** C9. When the book exists with a status other than AVAILABLE and the
    user does not exist, issueBook answers Conflict (409, "Book is not
    available"), not NotFound, and leaves the store as it was. *)
Theorem issueBook_conflict_before_user g body db b :
  book db !! issue_book_id body = Some b →
  Book.status b ≠ AVAILABLE →
  user db !! issue_user_id body = None →
  asyncHandler (issueBook g body) db = (error 409 "Book is not available", db)
  ∧ kind_of (asyncHandler (issueBook g body) db).1 = Some Conflict.
Proof.
  intros Hb Hst _. rewrite issueBook_cases, Hb.
  by rewrite bool_decide_eq_true_2.
Qed.

Lemma issueBook_conflict_before_user_witness :
  asyncHandler (issueBook (mkGen "I2" 20) (mkIssueBody "B1" "U9" 99)) library1
  = (error 409 "Book is not available", library1)
  ∧ kind_of (asyncHandler (issueBook (mkGen "I2" 20) (mkIssueBody "B1" "U9" 99))
               library1).1 = Some Conflict.
Proof.
  apply (issueBook_conflict_before_user (mkGen "I2" 20)
           (mkIssueBody "B1" "U9" 99) library1 (a_book ISSUED)).
  - reflexivity.
  - simpl. discriminate.
  - reflexivity.
Defined.

(** ** C3, C10: returnBook *)

Lemma nothing_found w issues :
  first_issued_date_desc
    (filter (λ r, matches w r = true) (map_to_list issues)) = None ↔
  ∀ id i, issues !! id = Some i → matches w (id, i) = false.
Proof.
  rewrite first_issued_date_desc_None. split.
  - intros Hnil id i Hi. apply not_true_is_false. intros Hm.
    eapply (filter_nil_not_elem_of _ _ (id, i)); [done..|].
    by apply elem_of_map_to_list.
  - intros Hnone.
    destruct (filter _ _) as [|[id i] rest] eqn:Hf; [done|].
    assert ((id, i) ∈ filter (λ r, matches w r = true) (map_to_list issues))
      as [Hm Hin%elem_of_map_to_list]%list_elem_of_filter
      by (rewrite Hf; left).
    by rewrite (Hnone id i Hin) in Hm.
Qed.

(** C3. For a body that passed [returnSchema]: without a selector the
    answer is BadRequest.  With one, if no open issue agrees with the
    selectors the answer is NotFound; otherwise the handler settles on an
    open issue that agrees with them and whose issued_date none of the
    others exceeds, and, the book of that issue being in the catalogue,
    answers 200, stamps that issue with returned_date = now and makes the
    book named by that issue's book_id AVAILABLE, touching nothing else.
    (A book missing from the catalogue aborts the transaction: 500, and
    the store as it was.) *)
Theorem returnBook_spec g body db :
  returnSchema body = true →
  (return_issue_id body = None ∧ return_book_id body = None →
   kind_of (asyncHandler (returnBook g body) db).1 = Some BadRequest
   ∧ (asyncHandler (returnBook g body) db).2 = db)
  ∧ (¬ (return_issue_id body = None ∧ return_book_id body = None) →
     ((∀ id i, bookIssue db !! id = Some i → ¬ selected body (id, i)) →
      kind_of (asyncHandler (returnBook g body) db).1 = Some NotFound
      ∧ (asyncHandler (returnBook g body) db).2 = db)
     ∧ ((∃ id i, bookIssue db !! id = Some i ∧ selected body (id, i)) →
        ∃ id i,
          bookIssue db !! id = Some i
          ∧ selected body (id, i)
          ∧ (∀ id' i', bookIssue db !! id' = Some i' →
                       selected body (id', i') →
                       (BookIssue.issued_date i' ≤ BookIssue.issued_date i)%Z)
          ∧ match book db !! BookIssue.book_id i with
            | Some b =>
                asyncHandler (returnBook g body) db =
                (json 200 (id, BookIssue.set_returned_date (Some (now g)) i),
                 mkDB (<[BookIssue.book_id i := Book.set_status AVAILABLE b]>
                         (book db))
                      (user db)
                      (<[id := BookIssue.set_returned_date (Some (now g)) i]>
                         (bookIssue db))
                      (printJob db) (payment db))
            | None =>
                asyncHandler (returnBook g body) db =
                (error 500 "Internal server error", db)
            end)).
Proof.
  intros Hv. rewrite returnBook_cases.
  pose proof (no_selector_validated body Hv) as Hno.
  split.
  - intros Hnone. apply Hno in Hnone as ->. done.
  - intros Hsome.
    destruct (_ && _) eqn:Hsel; [by destruct Hsome; apply Hno|].
    split.
    + intros Hnone.
      assert (first_issued_date_desc
                (filter (λ r, matches (return_where body) r = true)
                        (map_to_list (bookIssue db))) = None) as ->; [|done].
      apply nothing_found. intros id i Hi. apply not_true_is_false.
      rewrite matches_selected by done. by apply Hnone.
    + intros (id1 & i1 & Hi1 & Hs1).
      destruct (first_issued_date_desc _) as [[id i]|] eqn:Hfound.
      * apply found_issue in Hfound as (Hin & Hm & Hmax). simpl in *.
        exists id, i. rewrite Hin. split_and!; [done| |..].
        { by apply matches_selected. }
        { intros id' i' Hi' Hs'. apply (Hmax id' i' Hi').
          by apply matches_selected. }
        by destruct (book db !! BookIssue.book_id i).
      * exfalso. rewrite nothing_found in Hfound.
        specialize (Hfound id1 i1 Hi1).
        apply (matches_selected body (id1, i1) Hv) in Hs1. congruence.
Qed.

Lemma returnBook_spec_witness :
  returnSchema (mkReturnBody None (Some "B1")) = true
  ∧ asyncHandler (returnBook (mkGen "I9" 20) (mkReturnBody None (Some "B1")))
      library1
  = (json 200 ("I1", BookIssue.mk "B1" "U1" 10 99 (Some 20%Z)),
     mkDB (<["B1" := a_book AVAILABLE]> (book library1)) (user library1)
          (<["I1" := BookIssue.mk "B1" "U1" 10 99 (Some 20%Z)]>
             (bookIssue library1))
          (printJob library1) (payment library1)).
Proof.
  split; [reflexivity|].
  destruct (returnBook_spec (mkGen "I9" 20) (mkReturnBody None (Some "B1"))
              library1 eq_refl) as [_ Hsel].
  destruct Hsel as [_ Hfound]; [by intros [_ [=]]|].
  destruct Hfound as (id & i & Hi & _ & _ & Hout).
  { exists "I1", an_issue. split; [reflexivity|].
    split; [reflexivity|]. split; [by intros ? [=]|by intros ? [= <-]]. }
  unfold library1 in Hi. simpl in Hi.
  apply lookup_singleton_Some in Hi as [<- <-].
  exact Hout.
Defined.

(** C10. With both selectors given, an open issue found under issue_id
    whose book_id is not the book_id supplied does not match: the answer
    is NotFound and the store is as it was. *)
Theorem returnBook_selectors_conjunctive g db issue_id book_id i :
  issue_id ≠ "" → book_id ≠ "" →
  bookIssue db !! issue_id = Some i →
  BookIssue.returned_date i = None →
  BookIssue.book_id i ≠ book_id →
  asyncHandler (returnBook g (mkReturnBody (Some issue_id) (Some book_id))) db
  = (error 404 "Active issue not found", db)
  ∧ kind_of (asyncHandler
               (returnBook g (mkReturnBody (Some issue_id) (Some book_id)))
               db).1 = Some NotFound.
Proof.
  intros Hid Hbk Hi _ Hne. rewrite returnBook_cases. simpl.
  rewrite !bool_decide_eq_false_2 by done. simpl.
  assert (first_issued_date_desc
            (filter (λ r, matches (return_where
                       (mkReturnBody (Some issue_id) (Some book_id))) r = true)
                    (map_to_list (bookIssue db))) = None) as ->; [|done].
  apply nothing_found. intros id' i' Hi'.
  unfold matches, return_where. simpl.
  rewrite (bool_decide_eq_false_2 (issue_id = "")),
    (bool_decide_eq_false_2 (book_id = "")) by done. simpl.
  destruct (decide (id' = issue_id)) as [->|Hd].
  - rewrite Hi in Hi'. injection Hi' as <-.
    rewrite (bool_decide_eq_false_2 (BookIssue.book_id i = book_id)) by done.
    by rewrite andb_false_r.
  - rewrite (bool_decide_eq_false_2 (id' = issue_id)) by done.
    by rewrite andb_false_r.
Qed.

Lemma returnBook_selectors_conjunctive_witness :
  asyncHandler (returnBook (mkGen "I9" 20)
                  (mkReturnBody (Some "I1") (Some "B2"))) library1
  = (error 404 "Active issue not found", library1)
  ∧ kind_of (asyncHandler (returnBook (mkGen "I9" 20)
                             (mkReturnBody (Some "I1") (Some "B2")))
               library1).1 = Some NotFound.
Proof.
  apply (returnBook_selectors_conjunctive (mkGen "I9" 20) library1
           "I1" "B2" an_issue).
  - discriminate.
  - discriminate.
  - reflexivity.
  - reflexivity.
  - simpl. discriminate.
Defined.

(** ** The payment-collection URI *)

Lemma string_app_assoc (s1 s2 s3 : string) :
  (s1 +:+ s2) +:+ s3 = s1 +:+ (s2 +:+ s3).
Proof.
  induction s1 as [|c s1 IH]; [done|].
  change (String c ((s1 +:+ s2) +:+ s3) = String c (s1 +:+ s2 +:+ s3)).
  by rewrite IH.
Qed.

Lemma urlencode_app s1 s2 :
  urlencode (s1 +:+ s2) = urlencode s1 +:+ urlencode s2.
Proof.
  induction s1 as [|c s1 IH]; [done|].
  change (urlencode (String c (s1 +:+ s2))
          = urlencode (String c s1) +:+ urlencode s2).
  simpl. by rewrite IH, string_app_assoc.
Qed.

Lemma urlencode_unreserved s : all_unreserved s = true → urlencode s = s.
Proof.
  induction s as [|c s IH]; [done|]. simpl.
  intros [-> ->%IH]%andb_prop. done.
Qed.

Lemma pretty_N_char_unreserved x : unreserved (pretty_N_char x) = true.
Proof. unfold pretty_N_char. by repeat case_match. Qed.

Lemma pretty_N_go_unreserved x s :
  all_unreserved s = true → all_unreserved (pretty_N_go x s) = true.
Proof.
  revert s. induction (N.lt_wf_0 x) as [x _ IH]; intros s Hs.
  destruct (decide (x = 0)%N) as [->|Hx]; [done|].
  rewrite pretty_N_go_step by lia.
  apply IH; [apply N.div_lt; lia|].
  simpl. by rewrite pretty_N_char_unreserved.
Qed.

Lemma pretty_Z_unreserved (n : Z) : all_unreserved (pretty n) = true.
Proof.
  destruct n as [|p|p]; [done|..].
  - unfold pretty, pretty_Z, pretty, pretty_positive, pretty, pretty_N.
    case_decide; [done|]. by apply pretty_N_go_unreserved.
  - unfold pretty, pretty_Z, pretty, pretty_positive, pretty, pretty_N.
    case_decide; [done|]. simpl. by apply pretty_N_go_unreserved.
Qed.

Lemma all_unreserved_app s1 s2 :
  all_unreserved (s1 +:+ s2) = all_unreserved s1 && all_unreserved s2.
Proof.
  induction s1 as [|c s1 IH]; [done|].
  change (all_unreserved (String c (s1 +:+ s2))
          = all_unreserved (String c s1) && all_unreserved s2).
  simpl. by rewrite IH, andb_assoc.
Qed.

Lemma urlencode_two_decimals (n : Z) :
  urlencode (pretty n +:+ ".00") = pretty n +:+ ".00".
Proof.
  apply urlencode_unreserved.
  by rewrite all_unreserved_app, pretty_Z_unreserved.
Qed.

(** ** Amounts as doubles *)

Lemma to_double_pos_safe n : n < 2 ^ 53 → to_double_pos n = n.
Proof. intros Hn. unfold to_double_pos. by rewrite bool_decide_eq_true_2. Qed.

Lemma to_double_safe n : Z.abs n < 2 ^ 53 → to_double n = n.
Proof.
  intros Hn. unfold to_double. rewrite to_double_pos_safe by done.
  rewrite Z.mul_comm. apply Z.abs_sgn.
Qed.

Lemma to_double_pos_pos n : 0 < n → 0 < to_double_pos n.
Proof.
  intros Hn. unfold to_double_pos. case_bool_decide as Hbig; [done|].
  assert (52 ≤ Z.log2 n) as Hlog.
  { apply Z.log2_le_pow2; [done|]. lia. }
  set (e := Z.log2 n - 52).
  assert (0 < n ≫ e) as Hq.
  { rewrite Z.shiftr_div_pow2 by lia.
    apply Z.div_str_pos. split; [apply Z.pow_pos_nonneg; lia|].
    trans (2 ^ Z.log2 n); [apply Z.pow_le_mono_r; lia|].
    by apply Z.log2_spec. }
  rewrite Z.shiftl_mul_pow2 by lia.
  apply Z.mul_pos_pos; [|apply Z.pow_pos_nonneg; lia].
  repeat case_bool_decide; try lia. destruct (Z.even _); lia.
Qed.

Lemma pretty_Z_opp (x : Z) : 0 < x → pretty (- x) = "-" +:+ pretty x.
Proof. by destruct x. Qed.

(** Below 10^21 toFixed(2) is the numeral of the double and two zeros. *)
Lemma toFixed2_two_decimals n :
  Z.abs (to_double n) < 10 ^ 21 →
  toFixed2 n = pretty (to_double n) +:+ ".00".
Proof.
  unfold to_double, toFixed2. destruct n as [|p|p]; [done|..].
  - pose proof (to_double_pos_pos (Z.pos p) eq_refl) as Hpos.
    change (Z.sgn (Z.pos p)) with 1. change (Z.abs (Z.pos p)) with (Z.pos p).
    rewrite Z.mul_1_l. intros Hx.
    rewrite bool_decide_eq_false_2 by done.
    by rewrite bool_decide_eq_true_2 by lia.
  - pose proof (to_double_pos_pos (Z.pos p) eq_refl) as Hpos.
    change (Z.sgn (Z.neg p)) with (-1). change (Z.abs (Z.neg p)) with (Z.pos p).
    intros Hx.
    rewrite bool_decide_eq_true_2 by done.
    rewrite bool_decide_eq_true_2 by lia.
    replace (-1 * to_double_pos (Z.pos p)) with (- to_double_pos (Z.pos p))
      by lia.
    rewrite pretty_Z_opp by done. by rewrite string_app_assoc.
Qed.

Lemma urlencode_toFixed2 n :
  Z.abs (to_double n) < 10 ^ 21 →
  urlencode (toFixed2 n) = pretty (to_double n) +:+ ".00".
Proof.
  intros Hn. rewrite toFixed2_two_decimals by done.
  apply urlencode_two_decimals.
Qed.

Lemma urlencode_toFixed2_safe n :
  Z.abs n < 2 ^ 53 → urlencode (toFixed2 n) = pretty n +:+ ".00".
Proof.
  intros Hn. rewrite urlencode_toFixed2; rewrite to_double_safe by done;
    [done|lia].
Qed.





(** The URI spelled out: the six fields in the order they were set. *)
Lemma buildUpiPayUri_eq p :
  buildUpiPayUri p =
  "upi://pay?pa=" +:+ urlencode (payeeVpa p)
  +:+ "&pn=" +:+ urlencode (payeeName p)
  +:+ "&am=" +:+ urlencode (toFixed2 (amount p))
  +:+ "&cu=INR"
  +:+ "&tn=" +:+ urlencode (transactionNote p)
  +:+ "&tr=" +:+ urlencode (transactionRef p).
Proof.
  unfold buildUpiPayUri. simpl. by rewrite !string_app_assoc.
Qed.

(** ** The three payment handlers, case by case *)

Lemma initiate_cases env g auth body db :
  asyncHandler (initiate env g auth body) db =
  match printJob db !! initiate_print_id body with
  | None => (error 404 "Print job not found", db)
  | Some job =>
      if bool_decide (PrintJob.user_id job ≠ userId auth)
      then (error 403 "Forbidden", db)
      else if bool_decide (PrintJob.payment_status job = SUCCESS)
      then (error 409 "Print job is already paid", db)
      else
        match payment db !! generated_id g with
        | Some _ => (error 500 "Internal server error", db)
        | None =>
            (json 201
               (mkInitiateJson (generated_id g) (initiate_payment_method body)
                  PENDING (now g)
                  (buildUpiPayUri
                     (mkUpiParams (UPI_VPA env) (UPI_PAYEE_NAME env)
                        (PrintJob.total_cost job)
                        ("Print job " +:+ initiate_print_id body)
                        (generated_id g)))),
             mkDB (book db) (user db) (bookIssue db) (printJob db)
                  (<[generated_id g := initiated g auth body]> (payment db)))
        end
  end.
Proof.
  unfold asyncHandler, initiate. simpl.
  destruct (printJob db !! initiate_print_id body) as [job|]; [|done].
  case_bool_decide; [done|]. case_bool_decide; [done|]. simpl.
  unfold payment_create.
  by destruct (payment db !! generated_id g).
Qed.

Lemma verify_cases g auth body db :
  asyncHandler (verify g auth body) db =
  match payment db !! verify_payment_id body with
  | None => (error 404 "Payment not found", db)
  | Some p =>
      if bool_decide (Payment.user_id p ≠ userId auth)
      then (error 403 "Forbidden", db)
      else
        match printJob db !! Payment.print_id p with
        | None => (error 500 "Internal server error", db)
        | Some job =>
            let paid_at := if bool_decide (verify_payment_status body = SUCCESS)
                           then Some (now g) else None in
            (json 200
               (mkVerifyJson (verify_payment_id body)
                  (verify_payment_status body)
                  (Some (verify_transaction_id body)) paid_at),
             mkDB (book db) (user db) (bookIssue db)
                  (<[Payment.print_id p :=
                       PrintJob.set_payment_status (verify_payment_status body)
                         job]> (printJob db))
                  (<[verify_payment_id body :=
                       Payment.verified (verify_transaction_id body)
                         (verify_payment_status body) paid_at p]>
                     (payment db)))
        end
  end.
Proof.
  unfold asyncHandler, verify. simpl.
  destruct (payment db !! verify_payment_id body) as [p|] eqn:Hp; [|done].
  case_bool_decide; [done|]. simpl.
  unfold transaction, bind, payment_update, printJob_update, ret.
  rewrite Hp. simpl.
  by destruct (printJob db !! Payment.print_id p).
Qed.

Lemma status_cases auth paymentId db :
  asyncHandler (status auth paymentId) db =
  match payment db !! paymentId with
  | None => (error 404 "Payment not found", db)
  | Some p =>
      match printJob db !! Payment.print_id p with
      | None => (error 500 "Internal server error", db)
      | Some job =>
          if negb (bool_decide (Payment.user_id p = userId auth))
             && negb (bool_decide (role auth = LIBRARY_ADMIN)
                      || bool_decide (role auth = SUPER_ADMIN))
          then (error 403 "Forbidden", db)
          else (json 200
                  (mkStatusJson paymentId p (PrintJob.total_cost job)
                     (PrintJob.payment_status job)), db)
      end
  end.
Proof.
  unfold asyncHandler, status. simpl. unfold payment_findUnique_include_print.
  destruct (payment db !! paymentId) as [p|]; [|done].
  destruct (printJob db !! Payment.print_id p) as [job|]; [|done].
  simpl. by destruct (_ && _).
Qed.

(** ** C4: verify *)

(** C4. When the owner of an existing payment verifies it, the payment row
    takes the given transaction_id and payment_status, paid_at = now for
    SUCCESS and null otherwise, and the parent print job takes the same
    payment_status; nothing else changes.  The two writes stand or fall
    together: if the print job cannot be updated, the payment row is as
    it was. *)
Theorem verify_spec g auth body db p :
  payment db !! verify_payment_id body = Some p →
  Payment.user_id p = userId auth →
  let st := verify_payment_status body in
  let paid_at := match st with SUCCESS => Some (now g) | _ => None end in
  match printJob db !! Payment.print_id p with
  | Some job =>
      asyncHandler (verify g auth body) db =
      (json 200
         (mkVerifyJson (verify_payment_id body) st
            (Some (verify_transaction_id body)) paid_at),
       mkDB (book db) (user db) (bookIssue db)
            (<[Payment.print_id p :=
                 PrintJob.mk (PrintJob.user_id job) (PrintJob.file_name job)
                   (PrintJob.storage_path job) (PrintJob.total_pages job)
                   (PrintJob.cost_per_page job) (PrintJob.total_cost job)
                   st (PrintJob.created_at job)]> (printJob db))
            (<[verify_payment_id body :=
                 Payment.mk (Payment.user_id p) (Payment.print_id p)
                   (Payment.payment_method p)
                   (Some (verify_transaction_id body)) st paid_at
                   (Payment.created_at p)]> (payment db)))
  | None =>
      asyncHandler (verify g auth body) db
      = (error 500 "Internal server error", db)
  end.
Proof.
  intros Hp Howner. simpl. rewrite verify_cases, Hp.
  rewrite bool_decide_eq_false_2 by (by intros []).
  destruct (printJob db !! Payment.print_id p) as [job|]; [|done].
  simpl. by destruct (verify_payment_status body).
Qed.

Lemma verify_spec_witness :
  payment library2 !! "PA1" = Some a_payment
  ∧ asyncHandler (verify (mkGen "-" 20) (mkJwtUser "U1" USER)
                    (mkVerifyBody "PA1" "TXN123" SUCCESS)) library2
    = (json 200 (mkVerifyJson "PA1" SUCCESS (Some "TXN123") (Some 20)),
       library3)
  ∧ (asyncHandler (verify (mkGen "-" 30) (mkJwtUser "U1" USER)
                     (mkVerifyBody "PA1" "TXN124" FAILED)) library2).1
    = json 200 (mkVerifyJson "PA1" FAILED (Some "TXN124") None).
Proof.
  split; [reflexivity|]. split.
  - pose proof (verify_spec (mkGen "-" 20) (mkJwtUser "U1" USER)
                  (mkVerifyBody "PA1" "TXN123" SUCCESS) library2 a_payment
                  eq_refl eq_refl) as H.
    simpl in H. rewrite H. reflexivity.
  - pose proof (verify_spec (mkGen "-" 30) (mkJwtUser "U1" USER)
                  (mkVerifyBody "PA1" "TXN124" FAILED) library2 a_payment
                  eq_refl eq_refl) as H.
    simpl in H. rewrite H. reflexivity.
Defined.

(** ** C5, C6: initiate *)

(** C5. For a print job that exists, belongs to the requester and is
    already at payment_status SUCCESS, initiate answers Conflict (409,
    "Print job is already paid") whatever the payment method, and the
    store is as it was: no Payment row is created. *)
Theorem initiate_already_paid env g auth body db job :
  printJob db !! initiate_print_id body = Some job →
  PrintJob.user_id job = userId auth →
  PrintJob.payment_status job = SUCCESS →
  asyncHandler (initiate env g auth body) db
  = (error 409 "Print job is already paid", db)
  ∧ kind_of (asyncHandler (initiate env g auth body) db).1 = Some Conflict.
Proof.
  intros Hjob Howner Hpaid. rewrite initiate_cases, Hjob.
  rewrite bool_decide_eq_false_2 by (by intros []).
  by rewrite bool_decide_eq_true_2.
Qed.

Lemma initiate_already_paid_witness :
  asyncHandler (initiate default_env (mkGen "PA2" 30) (mkJwtUser "U1" USER)
                  (mkInitiateBody "P1" GPAY)) library3
  = (error 409 "Print job is already paid", library3)
  ∧ kind_of (asyncHandler (initiate default_env (mkGen "PA2" 30)
                             (mkJwtUser "U1" USER) (mkInitiateBody "P1" GPAY))
               library3).1 = Some Conflict.
Proof.
  apply (initiate_already_paid default_env (mkGen "PA2" 30)
           (mkJwtUser "U1" USER) (mkInitiateBody "P1" GPAY) library3
           (a_job SUCCESS)); reflexivity.
Defined.




(** ** C8: status *)

(** C8. For a payment that exists (with its print job): its owner, a
    LIBRARY_ADMIN and a SUPER_ADMIN get the payment with the print job's
    total_cost and payment_status; every other requester gets Forbidden;
    the store is as it was in both cases. *)
Theorem status_spec auth paymentId db p job :
  payment db !! paymentId = Some p →
  printJob db !! Payment.print_id p = Some job →
  (Payment.user_id p = userId auth
   ∨ role auth = LIBRARY_ADMIN ∨ role auth = SUPER_ADMIN →
   asyncHandler (status auth paymentId) db
   = (json 200 (mkStatusJson paymentId p (PrintJob.total_cost job)
                  (PrintJob.payment_status job)), db))
  ∧ (¬ (Payment.user_id p = userId auth
        ∨ role auth = LIBRARY_ADMIN ∨ role auth = SUPER_ADMIN) →
     asyncHandler (status auth paymentId) db = (error 403 "Forbidden", db)
     ∧ kind_of (asyncHandler (status auth paymentId) db).1 = Some Forbidden).
Proof.
  intros Hp Hjob. rewrite status_cases, Hp, Hjob. split.
  - intros Hallowed.
    destruct (_ && _) eqn:Hdeny; [|done].
    apply andb_prop in Hdeny as [Ho Ha]. apply negb_true_iff in Ho, Ha.
    apply orb_false_elim in Ha as [Hl Hs].
    apply bool_decide_eq_false in Ho, Hl, Hs. tauto.
  - intros Hdenied.
    rewrite !bool_decide_eq_false_2 by tauto. done.
Qed.

Lemma status_spec_witness :
  asyncHandler (status (mkJwtUser "U2" LIBRARY_ADMIN) "PA1") library3
  = (json 200
       (mkStatusJson "PA1"
          (Payment.mk "U1" "P1" UPI (Some "TXN123") SUCCESS (Some 20) 10)
          20 SUCCESS), library3)
  ∧ asyncHandler (status (mkJwtUser "U2" USER) "PA1") library3
    = (error 403 "Forbidden", library3).
Proof.
  split.
  - apply (status_spec (mkJwtUser "U2" LIBRARY_ADMIN) "PA1" library3
             (Payment.mk "U1" "P1" UPI (Some "TXN123") SUCCESS (Some 20) 10)
             (a_job SUCCESS) eq_refl eq_refl).
    right; left; reflexivity.
  - apply (status_spec (mkJwtUser "U2" USER) "PA1" library3
             (Payment.mk "U1" "P1" UPI (Some "TXN123") SUCCESS (Some 20) 10)
             (a_job SUCCESS) eq_refl eq_refl).
    simpl. intros [[=]|[[=]|[=]]].
Defined.

(** ** C7: two issueBook requests racing for one book *)

(** Advancing a request await by await is running it. *)
Lemma run_advance {R} (h : Handler R) db :
  run h db =
  match advance (Running h) db with
  | (Settled r, db') => (r, db')
  | (Running h', db') => run h' db'
  end.
Proof. destruct h as [r|A q k]; [done|]. simpl. by destruct (q db) as [[e|a] db']. Qed.

(** Served one after the other, the first request takes the book and the
    second is refused. *)
Lemma issueBook_one_after_the_other :
  interleave [First; First; First; First; Second; Second]
    (Running (issueBook (mkGen "I1" 10) (mkIssueBody "B1" "U1" 99)))
    (Running (issueBook (mkGen "I2" 11) (mkIssueBody "B1" "U2" 99)))
    library0
  = (Settled (inr (json 201 ("I1", BookIssue.mk "B1" "U1" 10 99 None))),
     Settled (inr (error 409 "Book is not available")),
     mkDB {[ "B1" := a_book ISSUED ]} (user library0)
          {[ "I1" := BookIssue.mk "B1" "U1" 10 99 None ]}
          (printJob library0) (payment library0)).
Proof. vm_compute. reflexivity. Qed.

(** C7. Two issueBook requests for the AVAILABLE book B1, each resumed in
    turn: both read status = AVAILABLE before either transaction runs,
    both transactions commit, both answers are 201, and B1 is left with
    two open issues.  The status is read before the transaction and not
    again inside it. *)
Theorem issueBook_race_double_issue :
  let '(t1, t2, db) :=
    interleave [First; Second; First; Second; First; Second; First; Second]
      (Running (issueBook (mkGen "I1" 10) (mkIssueBody "B1" "U1" 99)))
      (Running (issueBook (mkGen "I2" 11) (mkIssueBody "B1" "U2" 99)))
      library0 in
  t1 = Settled (inr (json 201 ("I1", BookIssue.mk "B1" "U1" 10 99 None)))
  ∧ t2 = Settled (inr (json 201 ("I2", BookIssue.mk "B1" "U2" 11 99 None)))
  ∧ book db !! "B1" = Some (a_book ISSUED)
  ∧ length (open_issues (bookIssue db) "B1") = 2%nat
  ∧ ¬ consistent db.
Proof.
  vm_compute interleave. split_and!; [reflexivity..|].
  intros Hc. destruct (Hc "B1") as [Hle _]. vm_compute in Hle. lia.
Qed.

(** * Further properties of the circulation engine *)

(** X1. issueBook succeeds exactly when the book is on the shelf, the user is
    known and the generated key is free; it then stores the new open issue
    and marks the book ISSUED, and touches nothing else. *)
Theorem issueBook_success g body db :
  (status_code (asyncHandler (issueBook g body) db).1 = 201%nat
   ↔ (∃ b, book db !! issue_book_id body = Some b
           ∧ Book.status b = AVAILABLE)
     ∧ is_Some (user db !! issue_user_id body)
     ∧ bookIssue db !! generated_id g = None)
  ∧ ∀ b, book db !! issue_book_id body = Some b →
         status_code (asyncHandler (issueBook g body) db).1 = 201%nat →
         asyncHandler (issueBook g body) db =
         (json 201
            (generated_id g,
             BookIssue.mk (issue_book_id body) (issue_user_id body) (now g)
               (issue_due_date body) None),
          mkDB (<[issue_book_id body :=
                    Book.mk (Book.book_name b) (Book.author_name b)
                      (Book.category b) (Book.publication_year b)
                      (Book.library_location b) ISSUED (Book.created_at b)]>
                  (book db))
               (user db)
               (<[generated_id g :=
                    BookIssue.mk (issue_book_id body) (issue_user_id body)
                      (now g) (issue_due_date body) None]> (bookIssue db))
               (printJob db) (payment db)).
Proof.
  rewrite issueBook_cases. split.
  - destruct (book db !! issue_book_id body) as [b|] eqn:Hb.
    2:{ split; [done|]. by intros [(b & [=] & _) _]. }
    case_bool_decide as Hst.
    { split; [done|]. intros [(b' & [= <-] & Hav) _]. done. }
    destruct (user db !! issue_user_id body) as [u|] eqn:Hu.
    2:{ split; [done|]. by intros (_ & [? [=]] & _). }
    destruct (bookIssue db !! generated_id g) eqn:Hi.
    { split; [done|]. by intros (_ & _ & [=]). }
    split; [|done]. intros _. split_and!; [|by eexists|done].
    exists b. split; [done|]. by destruct (Book.status b).
  - intros b ->. case_bool_decide; [done|].
    destruct (user db !! issue_user_id body); [|done].
    by destruct (bookIssue db !! generated_id g).
Qed.

(** What a 200 from returnBook means: the row it answers with was an open
    issue of the store, and the store afterwards differs from the one
    before in that row's returned_date and its book's status only. *)
Lemma returnBook_200 g body db r db' :
  asyncHandler (returnBook g body) db = (json 200 r, db') →
  ∃ i b,
    bookIssue db !! r.1 = Some i
    ∧ BookIssue.returned_date i = None
    ∧ book db !! BookIssue.book_id i = Some b
    ∧ r.2 = BookIssue.set_returned_date (Some (now g)) i
    ∧ db' = mkDB (<[BookIssue.book_id i := Book.set_status AVAILABLE b]> (book db))
                 (user db) (<[r.1 := r.2]> (bookIssue db))
                 (printJob db) (payment db).
Proof.
  rewrite returnBook_cases. destruct (_ && _); [done|].
  destruct (first_issued_date_desc _) as [[id i]|] eqn:Hfound; [|done].
  apply found_issue in Hfound as (Hin & Hm & _). simpl in *. rewrite Hin.
  destruct (book db !! BookIssue.book_id i) as [b|] eqn:Hb; [|done].
  intros [= <- <-]. exists i, b. split_and!; try done.
  unfold matches in Hm. simpl in Hm.
  by apply andb_prop in Hm as [[Ho%bool_decide_eq_true _]%andb_prop _].
Qed.

(** An issue that has been returned cannot be returned again: asked for
    by its issue_id, it is not found, and nothing is written. *)
Lemma returnBook_closed_issue g db issue_id book_id i :
  issue_id ≠ "" →
  bookIssue db !! issue_id = Some i →
  BookIssue.returned_date i ≠ None →
  asyncHandler (returnBook g (mkReturnBody (Some issue_id) book_id)) db
  = (error 404 "Active issue not found", db).
Proof.
  intros Hid Hi Hclosed. rewrite returnBook_cases. simpl.
  rewrite (bool_decide_eq_false_2 (issue_id = "")) by done. simpl.
  assert (first_issued_date_desc
            (filter (λ r, matches (return_where
                       (mkReturnBody (Some issue_id) book_id)) r = true)
                    (map_to_list (bookIssue db))) = None) as ->; [|done].
  apply nothing_found. intros id' i' Hi'.
  unfold matches, return_where. simpl.
  rewrite (bool_decide_eq_false_2 (issue_id = "")) by done. simpl.
  destruct (decide (id' = issue_id)) as [->|Hd].
  - rewrite Hi in Hi'. injection Hi' as <-.
    by rewrite (bool_decide_eq_false_2 (BookIssue.returned_date i = None)).
  - rewrite (bool_decide_eq_false_2 (id' = issue_id)) by done.
    by rewrite andb_false_r.
Qed.

(** X3. Returning twice: after a return that answered 200, a second return
    asking for the same issue_id answers NotFound and changes nothing. *)
Theorem returnBook_twice g g' body db r db' :
  r.1 ≠ "" →
  asyncHandler (returnBook g body) db = (json 200 r, db') →
  asyncHandler (returnBook g' (mkReturnBody (Some r.1) None)) db'
  = (error 404 "Active issue not found", db').
Proof.
  intros Hid (i & b & Hi & Hopen & Hb & Hr & ->)%returnBook_200.
  apply (returnBook_closed_issue g' _ r.1 None r.2); [done|..].
  - simpl. by rewrite lookup_insert_eq.
  - by rewrite Hr.
Qed.

Lemma returnBook_twice_witness :
  asyncHandler (returnBook (mkGen "-" 30) (mkReturnBody (Some "I1") None))
    (asyncHandler (returnBook (mkGen "-" 20) (mkReturnBody None (Some "B1")))
       library1).2
  = (error 404 "Active issue not found",
     (asyncHandler (returnBook (mkGen "-" 20) (mkReturnBody None (Some "B1")))
        library1).2).
Proof.
  apply (returnBook_twice (mkGen "-" 20) (mkGen "-" 30)
           (mkReturnBody None (Some "B1")) library1
           ("I1", BookIssue.mk "B1" "U1" 10 99 (Some 20))).
  - discriminate.
  - reflexivity.
Defined.

(** The two directions of a successful issue, for use below. *)
Lemma issueBook_201 g body db :
  status_code (asyncHandler (issueBook g body) db).1 = 201%nat →
  ∃ b, book db !! issue_book_id body = Some b
       ∧ Book.status b = AVAILABLE
       ∧ bookIssue db !! generated_id g = None
       ∧ asyncHandler (issueBook g body) db =
         (json 201 (generated_id g, issued g body),
          mkDB (<[issue_book_id body := Book.set_status ISSUED b]> (book db))
               (user db)
               (<[generated_id g := issued g body]> (bookIssue db))
               (printJob db) (payment db)).
Proof.
  rewrite issueBook_cases.
  destruct (book db !! issue_book_id body) as [b|]; [|done].
  case_bool_decide as Hst; [done|].
  destruct (user db !! issue_user_id body); [|done].
  destruct (bookIssue db !! generated_id g) eqn:Hi; [done|].
  intros _. exists b.
  split_and!; first [done | by destruct (Book.status b)].
Qed.

Lemma issueBook_ready g body db b :
  book db !! issue_book_id body = Some b →
  Book.status b = AVAILABLE →
  is_Some (user db !! issue_user_id body) →
  bookIssue db !! generated_id g = None →
  status_code (asyncHandler (issueBook g body) db).1 = 201%nat.
Proof.
  intros Hb Hst [u Hu] Hfresh. rewrite issueBook_cases, Hb, Hu, Hfresh.
  by rewrite bool_decide_eq_false_2 by (by rewrite Hst; intros []).
Qed.

(** X2. Issue, then return by book_id.  From a consistent store, a book that
    was issued and is then returned by its book_id is back on the shelf:
    the book table is what it was before the issue, and the issue table
    has gained the one row of that loan, now closed. *)
Theorem issueBook_returnBook g g' body db b :
  consistent db →
  issue_book_id body ≠ "" →
  book db !! issue_book_id body = Some b →
  status_code (asyncHandler (issueBook g body) db).1 = 201%nat →
  asyncHandler (returnBook g' (mkReturnBody None (Some (issue_book_id body))))
    (asyncHandler (issueBook g body) db).2
  = (json 200
       (generated_id g,
        BookIssue.mk (issue_book_id body) (issue_user_id body) (now g)
          (issue_due_date body) (Some (now g'))),
     mkDB (book db) (user db)
          (<[generated_id g :=
               BookIssue.mk (issue_book_id body) (issue_user_id body) (now g)
                 (issue_due_date body) (Some (now g'))]> (bookIssue db))
          (printJob db) (payment db)).
Proof.
  intros Hc Hbid Hb H201.
  destruct (issueBook_201 g body db H201) as (b' & Hb' & Hav & Hfresh & ->).
  rewrite Hb in Hb'. injection Hb' as <-.
  set (new := issued g body).
  rewrite returnBook_cases. simpl.
  rewrite (bool_decide_eq_false_2 (issue_book_id body = "")) by done. simpl.
  assert (length (open_issues (bookIssue db) (issue_book_id body)) = 0%nat)
    as Hnone.
  { destruct (Hc (issue_book_id body)) as [Hle Hiff].
    destruct (Hiff b Hb) as [_ Hback].
    destruct (length _) as [|[|n]]; [done| |lia].
    specialize (Hback eq_refl). congruence. }
  destruct (first_issued_date_desc _) as [[id i]|] eqn:Hfound.
  - apply found_issue in Hfound as (Hin & Hm & _). simpl in Hin, Hm.
    unfold matches, return_where in Hm. simpl in Hm.
    rewrite (bool_decide_eq_false_2 (issue_book_id body = "")) in Hm by done.
    simpl in Hm. rewrite andb_true_r in Hm.
    apply andb_prop in Hm as [Ho%bool_decide_eq_true Hbk%bool_decide_eq_true].
    destruct (decide (id = generated_id g)) as [->|Hne].
    + rewrite lookup_insert_eq in Hin. injection Hin as <-. simpl.
      rewrite !lookup_insert_eq. simpl.
      rewrite !insert_insert_eq. do 2 f_equal.
      apply insert_id. rewrite Hb. f_equal. destruct b; simpl in *. by subst.
    + rewrite lookup_insert_ne in Hin by done.
      exfalso. apply (length_zero_iff_nil (open_issues _ _)) in Hnone.
      eapply (filter_nil_not_elem_of _ _ (id, i)); [exact Hnone|done|].
      by apply elem_of_map_to_list.
  - exfalso. rewrite nothing_found in Hfound.
    specialize (Hfound (generated_id g) new).
    rewrite lookup_insert_eq in Hfound. specialize (Hfound eq_refl).
    unfold matches, return_where in Hfound. simpl in Hfound.
    rewrite (bool_decide_eq_false_2 (issue_book_id body = "")) in Hfound by done.
    simpl in Hfound. by rewrite bool_decide_eq_true_2 in Hfound.
Qed.

Lemma issueBook_returnBook_witness :
  asyncHandler (returnBook (mkGen "-" 20) (mkReturnBody None (Some "B1")))
    (asyncHandler (issueBook (mkGen "I1" 10) (mkIssueBody "B1" "U1" 99))
       library0).2
  = (json 200 ("I1", BookIssue.mk "B1" "U1" 10 99 (Some 20)),
     mkDB (book library0) (user library0)
          (<["I1" := BookIssue.mk "B1" "U1" 10 99 (Some 20)]>
             (bookIssue library0))
          (printJob library0) (payment library0)).
Proof.
  apply (issueBook_returnBook (mkGen "I1" 10) (mkGen "-" 20)
           (mkIssueBody "B1" "U1" 99) library0 (a_book AVAILABLE)).
  - apply library0_consistent.
  - discriminate.
  - reflexivity.
  - reflexivity.
Defined.

(** X4. Return, then issue again.  Once a return has answered 200, the book
    of the returned issue can go out at once: issueBook for that book, a
    known user and a free key answers 201. *)
Theorem returnBook_issueBook g g' body db r db' user_id due_date :
  asyncHandler (returnBook g body) db = (json 200 r, db') →
  is_Some (user db !! user_id) →
  bookIssue db !! generated_id g' = None →
  status_code
    (asyncHandler
       (issueBook g' (mkIssueBody (BookIssue.book_id r.2) user_id due_date))
       db').1 = 201%nat.
Proof.
  intros (i & b & Hi & Hopen & Hb & Hr & ->)%returnBook_200 Hu Hfresh.
  apply (issueBook_ready _ _ _ (Book.set_status AVAILABLE b)); simpl.
  - rewrite Hr. simpl. by rewrite lookup_insert_eq.
  - done.
  - done.
  - rewrite lookup_insert_ne; [done|]. intros Heq. congruence.
Qed.

Lemma returnBook_issueBook_witness :
  status_code
    (asyncHandler (issueBook (mkGen "I2" 30) (mkIssueBody "B1" "U2" 120))
       (asyncHandler (returnBook (mkGen "-" 20) (mkReturnBody None (Some "B1")))
          library1).2).1 = 201%nat.
Proof.
  apply (returnBook_issueBook (mkGen "-" 20) (mkGen "I2" 30)
           (mkReturnBody None (Some "B1")) library1
           ("I1", BookIssue.mk "B1" "U1" 10 99 (Some 20)) _ "U2" 120).
  - reflexivity.
  - by eexists.
  - reflexivity.
Defined.

(** ** Issue rows keep pointing at rows that exist *)

Lemma issueBook_referential g body db :
  referential db → referential (asyncHandler (issueBook g body) db).2.
Proof.
  intros Hr. rewrite issueBook_cases.
  destruct (book db !! issue_book_id body) as [b|] eqn:Hb; [|done].
  case_bool_decide; [done|].
  destruct (user db !! issue_user_id body) as [u|] eqn:Hu; [|done].
  destruct (bookIssue db !! generated_id g) eqn:Hfresh; [done|].
  intros id i. simpl. rewrite lookup_insert.
  case_decide as Hid.
  - intros [= <-]. simpl. rewrite lookup_insert_eq, Hu. by split.
  - intros [Hbk Hus]%Hr. split; [|done].
    rewrite lookup_insert. by case_decide.
Qed.

Lemma returnBook_referential g body db :
  referential db → referential (asyncHandler (returnBook g body) db).2.
Proof.
  intros Hr. rewrite returnBook_cases.
  destruct (_ && _); [done|].
  destruct (first_issued_date_desc _) as [[id0 i0]|] eqn:Hfound; [|done].
  apply found_issue in Hfound as (Hin & _ & _). simpl in *. rewrite Hin.
  destruct (book db !! BookIssue.book_id i0) as [b|] eqn:Hb; [|done].
  intros id i. simpl. rewrite lookup_insert.
  case_decide as Hid.
  - intros [= <-]. simpl. rewrite lookup_insert_eq.
    split; [done|]. by apply (Hr id0 i0).
  - intros [Hbk Hus]%Hr. split; [|done].
    rewrite lookup_insert. by case_decide.
Qed.

(** Whatever issueBook and returnBook requests are served, one after the
    other, from a store in which every issue row names an existing book
    and an existing user, every issue row still does. *)
Theorem circulation_referential db0 db :
  referential db0 → rtc circulation_step db0 db → referential db.
Proof.
  intros Hr Hsteps. induction Hsteps as [|d1 d2 d3 Hstep _ IH]; [done|].
  apply IH. destruct Hstep;
    [by apply issueBook_referential|by apply returnBook_referential].
Qed.

Lemma library0_referential : referential library0.
Proof. intros id i. unfold library0. simpl. by rewrite lookup_empty. Defined.

Lemma circulation_referential_witness :
  referential
    (asyncHandler (issueBook (mkGen "I1" 10) (mkIssueBody "B1" "U1" 99))
       library0).2.
Proof.
  apply (circulation_referential library0); [apply library0_referential|].
  eapply rtc_l; [apply step_issueBook|]. apply rtc_refl.
Defined.

(** ** GET /books/:id *)

Lemma matches_open_for book_id r :
  matches (mkWhere true None (Some book_id)) r = true ↔ is_open_for book_id r.
Proof.
  unfold matches, is_open_for. simpl.
  rewrite andb_true_r, andb_true_iff, !bool_decide_eq_true. done.
Qed.

Lemma filter_open_for issues book_id :
  filter (λ r, matches (mkWhere true None (Some book_id)) r = true)
         (map_to_list issues)
  = open_issues issues book_id.
Proof. apply list_filter_iff, matches_open_for. Qed.

Lemma getBook_cases bookId db :
  asyncHandler (getBook bookId) db =
  match book db !! bookId with
  | None => (error 404 "Book not found", db)
  | Some b =>
      match first_issued_date_desc (open_issues (bookIssue db) bookId) with
      | None => (json 200 (mkBookJson bookId b None), db)
      | Some issue =>
          match user db !! BookIssue.user_id issue.2 with
          | None => (error 500 "Internal server error", db)
          | Some u =>
              (json 200
                 (mkBookJson bookId b
                    (Some (mkIssuedJson issue.1 (User.name u) (User.email u)
                             (BookIssue.due_date issue.2)
                             (BookIssue.issued_date issue.2)))), db)
          end
      end
  end.
Proof.
  unfold asyncHandler, getBook. simpl.
  destruct (book db !! bookId) as [b|]; [|done]. simpl.
  unfold bookIssue_findFirst_include_user. rewrite filter_open_for.
  destruct (first_issued_date_desc _) as [issue|]; [|done].
  by destruct (user db !! BookIssue.user_id issue.2).
Qed.

(** X5. In a consistent store whose issue rows name existing users, the page
    of a book shows a borrower exactly when the book is ISSUED, and the
    borrower shown is the user of the book's open issue.  A book that does
    not exist is NotFound.  The store is only read. *)
Theorem getBook_spec bookId db :
  consistent db → referential db →
  match book db !! bookId with
  | None => asyncHandler (getBook bookId) db = (error 404 "Book not found", db)
  | Some b =>
      ∃ issued,
        asyncHandler (getBook bookId) db
        = (json 200 (mkBookJson bookId b issued), db)
        ∧ (is_Some issued ↔ Book.status b = ISSUED)
        ∧ ∀ ij, issued = Some ij →
                ∃ i u,
                  bookIssue db !! issued_issue_id ij = Some i
                  ∧ BookIssue.book_id i = bookId
                  ∧ BookIssue.returned_date i = None
                  ∧ user db !! BookIssue.user_id i = Some u
                  ∧ ij = mkIssuedJson (issued_issue_id ij) (User.name u)
                           (User.email u) (BookIssue.due_date i)
                           (BookIssue.issued_date i)
  end.
Proof.
  intros Hc Hr. rewrite getBook_cases.
  destruct (book db !! bookId) as [b|] eqn:Hb; [|done].
  destruct (Hc bookId) as [Hle Hiff]. specialize (Hiff b Hb).
  destruct (first_issued_date_desc _) as [[id i]|] eqn:Hfound.
  - apply first_issued_date_desc_Some in Hfound as [Hin _].
    assert (length (open_issues (bookIssue db) bookId) = 1%nat) as Hone.
    { destruct (open_issues (bookIssue db) bookId) as [|? [|? ?]];
        [by apply elem_of_nil in Hin|done|simpl in Hle; lia]. }
    apply list_elem_of_filter in Hin as [[Hopen Hbk] Hin%elem_of_map_to_list].
    simpl in *. destruct (Hr id i Hin) as [_ [u Hu]]. rewrite Hu.
    eexists. split; [done|]. split; [by rewrite Hiff|].
    intros ij [= <-]. simpl. by exists i, u.
  - apply first_issued_date_desc_None in Hfound. rewrite Hfound in Hiff.
    exists None. split; [done|]. split; [|done].
    split; [by intros [? [=]]|]. intros Hst. by apply Hiff in Hst.
Qed.

Lemma getBook_spec_witness :
  (∃ issued,
     asyncHandler (getBook "B1") library0
     = (json 200 (mkBookJson "B1" (a_book AVAILABLE) issued), library0)
     ∧ (is_Some issued ↔ Book.status (a_book AVAILABLE) = ISSUED)
     ∧ ∀ ij, issued = Some ij →
             ∃ i u,
               bookIssue library0 !! issued_issue_id ij = Some i
               ∧ BookIssue.book_id i = "B1"
               ∧ BookIssue.returned_date i = None
               ∧ user library0 !! BookIssue.user_id i = Some u
               ∧ ij = mkIssuedJson (issued_issue_id ij) (User.name u)
                        (User.email u) (BookIssue.due_date i)
                        (BookIssue.issued_date i)).
Proof.
  apply (getBook_spec "B1" library0 library0_consistent library0_referential).
Defined.

(** ** PUT /books/:id *)

Lemma updateBook_cases id body db :
  asyncHandler (updateBook id body) db =
  match book db !! id with
  | None => (error 500 "Internal server error", db)
  | Some b =>
      (json 200 (id, update_data body b),
       mkDB (<[id := update_data body b]> (book db)) (user db) (bookIssue db)
            (printJob db) (payment db))
  end.
Proof.
  unfold asyncHandler, updateBook. simpl. unfold book_update.
  by destruct (book db !! id).
Qed.

(** X7. Editing a catalogue entry cannot touch circulation: the issue table is
    as it was, every book keeps its status, and a consistent store stays
    consistent.  Editing a book that does not exist is not answered with
    NotFound: the update throws and the answer is 500. *)
Theorem updateBook_keeps_circulation id body db :
  bookIssue (asyncHandler (updateBook id body) db).2 = bookIssue db
  ∧ (∀ k, Book.status <$> book (asyncHandler (updateBook id body) db).2 !! k
          = Book.status <$> book db !! k)
  ∧ (consistent db → consistent (asyncHandler (updateBook id body) db).2)
  ∧ (book db !! id = None →
     asyncHandler (updateBook id body) db
     = (error 500 "Internal server error", db)).
Proof.
  rewrite updateBook_cases.
  destruct (book db !! id) as [b|] eqn:Hb; [|done]. simpl.
  assert (∀ k, Book.status <$> <[id := update_data body b]> (book db) !! k
               = Book.status <$> book db !! k) as Hst.
  { intros k. rewrite lookup_insert. case_decide as Hk; [|done].
    subst k. by rewrite Hb. }
  split_and!; [done|done| |done].
  intros Hc k. destruct (Hc k) as [Hle Hiff]. simpl. split; [done|].
  intros b' Hb'. specialize (Hst k). rewrite Hb' in Hst. simpl in Hst.
  destruct (book db !! k) as [b0|] eqn:Hb0; [|done].
  injection Hst as Hst. rewrite Hst. by apply Hiff.
Qed.

(** ** Who may reach the circulation routes *)

(** X8. The routes that issue, return, list issued books and edit the
    catalogue answer a caller of role USER with Forbidden, and a caller
    without a valid token with 401, whatever the body; the store is as it
    was.  The role is checked before the body is validated. *)
Theorem books_routes_admin_only g userId ib rb id ub db :
  let user_cred := Token (mkJwtUser userId USER) in
  asyncHandler (POST_books_issue g user_cred ib) db
  = (error 403 "Forbidden", db)
  ∧ asyncHandler (POST_books_return g user_cred rb) db
    = (error 403 "Forbidden", db)
  ∧ asyncHandler (PUT_books user_cred id ub) db = (error 403 "Forbidden", db)
  ∧ asyncHandler (GET_books_issued user_cred) db = (error 403 "Forbidden", db)
  ∧ (∀ cred, (cred = NoToken ∨ cred = BadToken) →
       status_code (asyncHandler (POST_books_issue g cred ib) db).1 = 401%nat
       ∧ (asyncHandler (POST_books_issue g cred ib) db).2 = db
       ∧ status_code (asyncHandler (POST_books_return g cred rb) db).1 = 401%nat
       ∧ (asyncHandler (POST_books_return g cred rb) db).2 = db).
Proof.
  simpl. split_and!; try done.
  by intros cred [-> | ->].
Qed.

(** For the two admin roles and a valid body, the routes are the handlers. *)
Lemma POST_books_issue_accepted g a body :
  role a ≠ USER → issueSchema body = true →
  POST_books_issue g (Token a) body = issueBook g body.
Proof.
  intros Hrole Hv. unfold POST_books_issue, requireAuth, requireRole,
    validateBody. rewrite Hv.
  rewrite bool_decide_eq_true_2; [done|].
  destruct (role a); [done|left|right; left].
Qed.

(** ** GET /books/issued *)

#[local] Instance issued_date_desc_total : Total issued_date_desc.
Proof. intros x y. unfold issued_date_desc. lia. Qed.

#[local] Instance issued_date_desc_trans : Transitive issued_date_desc.
Proof. intros x y z. unfold issued_date_desc. lia. Qed.

Lemma matches_open r :
  matches (mkWhere true None None) r = true
  ↔ BookIssue.returned_date r.2 = None.
Proof.
  unfold matches. simpl. by rewrite !andb_true_r, bool_decide_eq_true.
Qed.

(** The rows a joined [findMany] hands back: the sorted rows, each with
    the book and the user it names. *)
Lemma joined_rows db (sorted : list (string * BookIssue.t)) rows :
  mapM (λ r : string * BookIssue.t,
          match book db !! BookIssue.book_id r.2,
                user db !! BookIssue.user_id r.2 with
          | Some b, Some u => Some (r, b, u)
          | _, _ => None
          end) sorted = Some rows →
  (λ j : string * BookIssue.t * Book.t * User.t, j.1.1) <$> rows = sorted
  ∧ Forall (λ j : string * BookIssue.t * Book.t * User.t,
              book db !! BookIssue.book_id j.1.1.2 = Some j.1.2
              ∧ user db !! BookIssue.user_id j.1.1.2 = Some j.2) rows.
Proof.
  intros Hall%mapM_Some_1.
  induction Hall as [|r j sorted rows Hj _ [IH1 IH2]]; [done|].
  destruct (book db !! BookIssue.book_id r.2) as [b|] eqn:Hb; [|done].
  destruct (user db !! BookIssue.user_id r.2) as [u|] eqn:Hu; [|done].
  injection Hj as <-. rewrite fmap_cons. split; [by rewrite IH1|].
  constructor; [done|done].
Qed.

Lemma StronglySorted_fmap_inv {A B} (f : A → B) (R : relation B) l :
  StronglySorted R (f <$> l) → StronglySorted (λ x y, R (f x) (f y)) l.
Proof.
  induction l as [|x l IH]; [constructor|].
  rewrite fmap_cons. intros [Hx Hl]%StronglySorted_cons.
  constructor; [by apply IH|]. rewrite Forall_fmap in Hx. exact Hx.
Qed.

(** X6. In a store whose issue rows name existing books and users, the list
    of issued books has one item for each open issue and no other, no
    issue twice, the later issued first, and each item carries the book
    and the borrower its issue names.  The store is only read. *)
Theorem listIssued_spec db :
  referential db →
  ∃ items,
    asyncHandler listIssued db = (json 200 items, db)
    ∧ StronglySorted (λ x y, ii_issued_date y ≤ ii_issued_date x) items
    ∧ NoDup (ii_issue_id <$> items)
    ∧ ∀ it, it ∈ items ↔
            ∃ id i b u,
              bookIssue db !! id = Some i
              ∧ BookIssue.returned_date i = None
              ∧ book db !! BookIssue.book_id i = Some b
              ∧ user db !! BookIssue.user_id i = Some u
              ∧ it = mkIssuedItem id (BookIssue.issued_date i)
                       (BookIssue.due_date i) (BookIssue.book_id i)
                       (Book.book_name b) (Book.author_name b)
                       (Book.category b) (BookIssue.user_id i)
                       (User.name u) (User.email u).
Proof.
  intros Hr. unfold asyncHandler, listIssued. simpl.
  unfold bookIssue_findMany_include_book_user.
  set (opens := filter (λ r, matches (mkWhere true None None) r = true)
                       (map_to_list (bookIssue db))).
  set (sorted := merge_sort issued_date_desc opens).
  assert (∀ r, r ∈ sorted ↔
               bookIssue db !! r.1 = Some r.2
               ∧ BookIssue.returned_date r.2 = None) as Hmem.
  { intros [id i]. unfold sorted. rewrite merge_sort_Permutation.
    unfold opens. rewrite list_elem_of_filter, matches_open,
      elem_of_map_to_list. simpl. tauto. }
  destruct (mapM _ sorted) as [rows|] eqn:Hrows.
  2:{ exfalso. apply mapM_None_1, Exists_exists in Hrows as (r & Hin & Hnone).
      apply Hmem in Hin as [Hin _]. destruct (Hr _ _ Hin) as [[b Hb] [u Hu]].
      by rewrite Hb, Hu in Hnone. }
  apply joined_rows in Hrows as [Hfst Hjoin].
  exists (issued_item <$> rows). split; [done|]. split_and!.
  - apply StronglySorted_fmap
      with (R1 := λ x y, issued_date_desc x.1.1 y.1.1).
    { by intros [[??]?] [[??]?]. }
    apply (StronglySorted_fmap_inv
             (λ j : string * BookIssue.t * Book.t * User.t, j.1.1)
             issued_date_desc).
    rewrite Hfst.
    apply StronglySorted_merge_sort; apply _.
  - assert (ii_issue_id <$> (issued_item <$> rows) = sorted.*1) as ->.
    { rewrite <-Hfst, <-!list_fmap_compose.
      apply list_fmap_ext. by intros ? [[??]?] ?. }
    unfold sorted. rewrite merge_sort_Permutation.
    apply NoDup_fmap_2_strong.
    + intros [k1 v1] [k2 v2] [_ H1%elem_of_map_to_list]%list_elem_of_filter
        [_ H2%elem_of_map_to_list]%list_elem_of_filter. simpl.
      intros <-. congruence.
    + apply NoDup_filter, NoDup_map_to_list.
  - intros it. rewrite list_elem_of_fmap. split.
    + intros ([[[id i] b] u] & -> & Hin).
      pose proof (proj1 (Forall_forall _ _) Hjoin _ Hin) as [Hb Hu].
      assert ((id, i) ∈ sorted) as [Hi Hopen]%Hmem.
      { rewrite <-Hfst. apply list_elem_of_fmap. by eexists (id, i, b, u). }
      simpl in *. by exists id, i, b, u.
    + intros (id & i & b & u & Hi & Hopen & Hb & Hu & ->).
      assert ((id, i) ∈ sorted) as Hin by (by apply Hmem).
      rewrite <-Hfst in Hin.
      apply list_elem_of_fmap in Hin as ([[[id' i'] b'] u'] & [= <- <-] & Hin).
      pose proof (proj1 (Forall_forall _ _) Hjoin _ Hin) as [Hb' Hu'].
      simpl in *. exists (id, i, b', u'). split; [|done].
      simpl. congruence.
Qed.

Lemma library1_consistent : consistent library1.
Proof.
  intros x. unfold open_issues, library1. simpl.
  rewrite map_to_list_singleton, filter_cons, filter_nil.
  destruct (decide (is_open_for x ("I1", an_issue))) as [[_ Hx]|Hn]; simpl.
  - simpl in Hx. subst x. split; [lia|].
    rewrite lookup_insert_eq. by intros b [= <-].
  - split; [lia|]. intros b Hb.
    rewrite lookup_insert_ne in Hb by (intros <-; by apply Hn).
    apply lookup_singleton_Some in Hb as [_ <-]. simpl. split; [done|lia].
Defined.

Lemma library1_referential : referential library1.
Proof.
  intros id i. unfold library1. simpl.
  intros [<- <-]%lookup_singleton_Some. simpl. split; by eexists.
Defined.

Lemma listIssued_spec_witness :
  referential library1
  ∧ asyncHandler listIssued library1
    = (json 200
         [mkIssuedItem "I1" 10 99 "B1" "Dune" "Herbert" "SF" "U1" "Ann"
            "ann@lib"], library1).
Proof.
  split; [apply library1_referential|].
  destruct (listIssued_spec library1 library1_referential)
    as (items & Hout & _).
  rewrite Hout. vm_compute in Hout. by injection Hout as <-.
Defined.

(** ** GET /admin/dashboard *)

Lemma dashboard_cases db :
  asyncHandler dashboard db =
  (json 200
     (mkStats (size (book db)) (size (user db))
        (length (filter (λ r, matches (mkWhere true None None) r = true)
                        (map_to_list (bookIssue db))))
        (length (filter (λ r : string * PrintJob.t,
                           PrintJob.payment_status r.2 = PENDING)
                        (map_to_list (printJob db))))
        (size (payment db))), db).
Proof. reflexivity. Qed.

(** Of a list with at most one element, two members are the same. *)
Lemma short_list_unique {A} (l : list A) x y :
  (length l ≤ 1)%nat → x ∈ l → y ∈ l → x = y.
Proof.
  destruct l as [|z [|z' l]]; simpl; [by intros _ ?%elem_of_nil| |lia].
  by intros _ ->%list_elem_of_singleton ->%list_elem_of_singleton.
Qed.

(** In a consistent store whose issue rows name existing books, the open
    issues and the ISSUED books are as many. *)
Lemma open_issues_count_ISSUED db :
  consistent db → referential db →
  length (filter (λ r : string * BookIssue.t,
                    BookIssue.returned_date r.2 = None)
                 (map_to_list (bookIssue db)))
  = length (filter (λ r : string * Book.t, Book.status r.2 = ISSUED)
                   (map_to_list (book db))).
Proof.
  intros Hc Hr.
  set (opens := filter _ (map_to_list (bookIssue db))).
  set (out := filter _ (map_to_list (book db))).
  rewrite <-(length_fmap (λ r, BookIssue.book_id r.2) opens),
    <-(length_fmap fst out).
  apply Permutation_length, NoDup_Permutation.
  - apply NoDup_fmap_2_strong; [|apply NoDup_filter, NoDup_map_to_list].
    intros x y [Hx Hxin]%list_elem_of_filter [Hy Hyin]%list_elem_of_filter Hxy.
    destruct (Hc (BookIssue.book_id x.2)) as [Hle _].
    apply (short_list_unique _ _ _ Hle); apply list_elem_of_filter; by split.
  - apply NoDup_fmap_2_strong; [|apply NoDup_filter, NoDup_map_to_list].
    intros [k1 v1] [k2 v2] [_ H1%elem_of_map_to_list]%list_elem_of_filter
      [_ H2%elem_of_map_to_list]%list_elem_of_filter. simpl.
    intros <-. congruence.
  - intros k. rewrite !list_elem_of_fmap. split.
    + intros ([id i] & -> & [Hopen Hin]%list_elem_of_filter). simpl in *.
      pose proof Hin as Hi%elem_of_map_to_list.
      destruct (Hr id i Hi) as [[b Hb] _].
      exists (BookIssue.book_id i, b). split; [done|].
      apply list_elem_of_filter. split; [|by apply elem_of_map_to_list].
      simpl. destruct (Hc (BookIssue.book_id i)) as [Hle Hiff].
      apply (Hiff b Hb).
      assert ((id, i) ∈ open_issues (bookIssue db) (BookIssue.book_id i))
        as Hmem by (by apply list_elem_of_filter).
      destruct (open_issues _ _) as [|? [|? ?]];
        [by apply elem_of_nil in Hmem|done|simpl in Hle; lia].
    + intros ([k' b] & -> & [Hst Hin%elem_of_map_to_list]%list_elem_of_filter).
      simpl in *. destruct (Hc k') as [_ Hiff].
      apply (Hiff b Hin) in Hst.
      destruct (open_issues (bookIssue db) k') as [|[id i] ?] eqn:Hopens;
        [done|].
      assert ((id, i) ∈ open_issues (bookIssue db) k')
        as [[Hopen Hbk] Hi]%list_elem_of_filter by (rewrite Hopens; left).
      exists (id, i). split; [done|]. by apply list_elem_of_filter.
Qed.

(** X9. On the dashboard of a consistent store whose issue rows name existing
    books, the number of active issues is the number of books marked
    ISSUED; the first, second and last figures are the sizes of the book,
    user and payment tables.  The store is only read. *)
Theorem dashboard_activeIssues db :
  consistent db → referential db →
  ∃ stats,
    asyncHandler dashboard db = (json 200 stats, db)
    ∧ stats_activeIssues stats
      = length (filter (λ r : string * Book.t, Book.status r.2 = ISSUED)
                       (map_to_list (book db)))
    ∧ stats_books stats = size (book db)
    ∧ stats_users stats = size (user db)
    ∧ stats_payments stats = size (payment db).
Proof.
  intros Hc Hr. rewrite dashboard_cases. eexists. split; [done|]. simpl.
  split; [|done]. rewrite <-(open_issues_count_ISSUED db Hc Hr).
  f_equal. apply list_filter_iff, matches_open.
Qed.

Lemma dashboard_activeIssues_witness :
  consistent library1 ∧ referential library1
  ∧ (asyncHandler dashboard library1).1 = json 200 (mkStats 2 2 1 1 0).
Proof.
  split; [apply library1_consistent|]. split; [apply library1_referential|].
  destruct (dashboard_activeIssues library1 library1_consistent
              library1_referential) as (stats & Hout & _).
  rewrite Hout. vm_compute in Hout. by injection Hout as <-.
Defined.

(** * Further properties of the payment engine *)

(** X10. initiate turns away a print job that does not exist (NotFound) and a
    requester who does not own the job (Forbidden, whatever the role and
    whether or not the job is paid); and unless it answers 201 it leaves
    the store as it was. *)
Theorem initiate_rejections env g auth body db :
  (printJob db !! initiate_print_id body = None →
   asyncHandler (initiate env g auth body) db
   = (error 404 "Print job not found", db))
  ∧ (∀ job, printJob db !! initiate_print_id body = Some job →
            PrintJob.user_id job ≠ userId auth →
            asyncHandler (initiate env g auth body) db
            = (error 403 "Forbidden", db))
  ∧ (status_code (asyncHandler (initiate env g auth body) db).1 ≠ 201%nat →
     (asyncHandler (initiate env g auth body) db).2 = db).
Proof.
  rewrite initiate_cases. split_and!.
  - by intros ->.
  - intros job -> Hne. by rewrite bool_decide_eq_true_2.
  - destruct (printJob db !! initiate_print_id body) as [job|]; [|done].
    case_bool_decide; [done|]. case_bool_decide; [done|].
    by destruct (payment db !! generated_id g).
Qed.

Lemma verify_not_200 g auth body db :
  status_code (asyncHandler (verify g auth body) db).1 ≠ 200%nat →
  (asyncHandler (verify g auth body) db).2 = db.
Proof.
  rewrite verify_cases.
  destruct (payment db !! verify_payment_id body) as [p|]; [|done].
  case_bool_decide; [done|].
  by destruct (printJob db !! Payment.print_id p).
Qed.

(** X11. verify turns away a payment that does not exist (NotFound) and a
    requester who is not the payment's owner (Forbidden, administrators
    included); and unless it answers 200 it leaves the store as it was. *)
Theorem verify_rejections g auth body db :
  (payment db !! verify_payment_id body = None →
   asyncHandler (verify g auth body) db = (error 404 "Payment not found", db))
  ∧ (∀ p, payment db !! verify_payment_id body = Some p →
          Payment.user_id p ≠ userId auth →
          asyncHandler (verify g auth body) db = (error 403 "Forbidden", db))
  ∧ (status_code (asyncHandler (verify g auth body) db).1 ≠ 200%nat →
     (asyncHandler (verify g auth body) db).2 = db).
Proof.
  split_and!; [| |apply verify_not_200]; rewrite verify_cases.
  - by intros ->.
  - intros p -> Hne. by rewrite bool_decide_eq_true_2.
Qed.

(** What a 200 from verify means. *)
Lemma verify_200 g auth body db :
  status_code (asyncHandler (verify g auth body) db).1 = 200%nat →
  ∃ p job,
    payment db !! verify_payment_id body = Some p
    ∧ Payment.user_id p = userId auth
    ∧ printJob db !! Payment.print_id p = Some job
    ∧ (asyncHandler (verify g auth body) db).2
      = mkDB (book db) (user db) (bookIssue db)
             (<[Payment.print_id p :=
                  PrintJob.set_payment_status (verify_payment_status body) job]>
                (printJob db))
             (<[verify_payment_id body :=
                  Payment.verified (verify_transaction_id body)
                    (verify_payment_status body)
                    (if bool_decide (verify_payment_status body = SUCCESS)
                     then Some (now g) else None) p]> (payment db)).
Proof.
  rewrite verify_cases.
  destruct (payment db !! verify_payment_id body) as [p|]; [|done].
  case_bool_decide as Hown; [done|].
  destruct (printJob db !! Payment.print_id p) as [job|] eqn:Hjob; [|done].
  intros _. by exists p, job.
Qed.

(** X12. The last verification wins: where a verification is accepted, it
    gives the same answer and the same store whether or not the payment
    had been verified before.  Nothing of the earlier outcome is kept. *)
Theorem verify_overwrites g1 g2 auth1 auth2 body1 body2 db :
  verify_payment_id body1 = verify_payment_id body2 →
  status_code (asyncHandler (verify g2 auth2 body2) db).1 = 200%nat →
  asyncHandler (verify g2 auth2 body2)
    (asyncHandler (verify g1 auth1 body1) db).2
  = asyncHandler (verify g2 auth2 body2) db.
Proof.
  intros Hid (p2 & job2 & Hp2 & Hown2 & Hjob2 & _)%verify_200.
  destruct (decide (status_code (asyncHandler (verify g1 auth1 body1) db).1
                    = 200%nat)) as [H200|Hfail].
  2:{ by rewrite (verify_not_200 g1 auth1 body1 db Hfail). }
  apply verify_200 in H200 as (p & job & Hp & Hown & Hjob & ->).
  rewrite Hid, Hp2 in Hp. injection Hp as <-.
  rewrite Hjob2 in Hjob. injection Hjob as <-.
  rewrite !verify_cases. simpl. rewrite Hid.
  rewrite lookup_insert_eq, Hp2. simpl.
  rewrite bool_decide_eq_false_2 by (by intros []).
  rewrite lookup_insert_eq, Hjob2. simpl.
  by rewrite !insert_insert_eq.
Qed.

Lemma verify_overwrites_witness :
  asyncHandler (verify (mkGen "-" 30) (mkJwtUser "U1" USER)
                  (mkVerifyBody "PA1" "TXN124" FAILED))
    (asyncHandler (verify (mkGen "-" 20) (mkJwtUser "U1" USER)
                     (mkVerifyBody "PA1" "TXN123" SUCCESS)) library2).2
  = asyncHandler (verify (mkGen "-" 30) (mkJwtUser "U1" USER)
                    (mkVerifyBody "PA1" "TXN124" FAILED)) library2.
Proof.
  apply (verify_overwrites (mkGen "-" 20) (mkGen "-" 30)
           (mkJwtUser "U1" USER) (mkJwtUser "U1" USER)
           (mkVerifyBody "PA1" "TXN123" SUCCESS)
           (mkVerifyBody "PA1" "TXN124" FAILED) library2 eq_refl eq_refl).
Defined.

(** X13. Once a payment has been verified as SUCCESS, no initiate on its print
    job creates a payment: the owner of the job is answered Conflict and
    anyone else Forbidden. *)
Theorem verify_SUCCESS_then_initiate env g g' auth auth' vbody ibody db p :
  payment db !! verify_payment_id vbody = Some p →
  verify_payment_status vbody = SUCCESS →
  status_code (asyncHandler (verify g auth vbody) db).1 = 200%nat →
  initiate_print_id ibody = Payment.print_id p →
  ∃ job,
    printJob db !! Payment.print_id p = Some job
    ∧ asyncHandler (initiate env g' auth' ibody)
        (asyncHandler (verify g auth vbody) db).2
      = (if decide (PrintJob.user_id job = userId auth')
         then error 409 "Print job is already paid"
         else error 403 "Forbidden",
         (asyncHandler (verify g auth vbody) db).2).
Proof.
  intros Hp Hs (p' & job & Hp' & _ & Hjob & ->)%verify_200 Hpid.
  rewrite Hp in Hp'. injection Hp' as <-.
  exists job. split; [done|].
  rewrite initiate_cases. simpl. rewrite Hpid, lookup_insert_eq. simpl.
  destruct (decide (PrintJob.user_id job = userId auth')) as [Ho|Ho].
  - rewrite bool_decide_eq_false_2 by (by intros []).
    by rewrite bool_decide_eq_true_2.
  - by rewrite bool_decide_eq_true_2.
Qed.

Lemma verify_SUCCESS_then_initiate_witness :
  asyncHandler (initiate default_env (mkGen "PA2" 30) (mkJwtUser "U1" USER)
                  (mkInitiateBody "P1" GPAY))
    (asyncHandler (verify (mkGen "-" 20) (mkJwtUser "U1" USER)
                     (mkVerifyBody "PA1" "TXN123" SUCCESS)) library2).2
  = (error 409 "Print job is already paid",
     (asyncHandler (verify (mkGen "-" 20) (mkJwtUser "U1" USER)
                      (mkVerifyBody "PA1" "TXN123" SUCCESS)) library2).2).
Proof.
  destruct (verify_SUCCESS_then_initiate default_env (mkGen "-" 20)
              (mkGen "PA2" 30) (mkJwtUser "U1" USER) (mkJwtUser "U1" USER)
              (mkVerifyBody "PA1" "TXN123" SUCCESS) (mkInitiateBody "P1" GPAY)
              library2 a_payment eq_refl eq_refl eq_refl eq_refl)
    as (job & Hjob & Hout).
  unfold library2 in Hjob. simpl in Hjob.
  apply lookup_singleton_Some in Hjob as [_ <-].
  exact Hout.
Defined.

(** X14. A payment verified as FAILED leaves the job open: the owner of the
    job can initiate a new payment at once. *)
Theorem verify_FAILED_then_initiate env g g' auth vbody ibody db p job :
  payment db !! verify_payment_id vbody = Some p →
  printJob db !! Payment.print_id p = Some job →
  verify_payment_status vbody = FAILED →
  status_code (asyncHandler (verify g auth vbody) db).1 = 200%nat →
  initiate_print_id ibody = Payment.print_id p →
  PrintJob.user_id job = userId auth →
  payment db !! generated_id g' = None →
  status_code
    (asyncHandler (initiate env g' auth ibody)
       (asyncHandler (verify g auth vbody) db).2).1 = 201%nat.
Proof.
  intros Hp Hjob Hs (p' & job' & Hp' & _ & Hjob' & ->)%verify_200 Hpid Hown
    Hfresh.
  rewrite Hp in Hp'. injection Hp' as <-.
  rewrite Hjob in Hjob'. injection Hjob' as <-.
  rewrite initiate_cases. simpl. rewrite Hpid, lookup_insert_eq. simpl.
  rewrite bool_decide_eq_false_2 by (by intros []).
  rewrite Hs. rewrite bool_decide_eq_false_2 by done.
  rewrite lookup_insert_ne by congruence. by rewrite Hfresh.
Qed.

Lemma verify_FAILED_then_initiate_witness :
  status_code
    (asyncHandler (initiate default_env (mkGen "PA2" 40) (mkJwtUser "U1" USER)
                     (mkInitiateBody "P1" UPI))
       (asyncHandler (verify (mkGen "-" 30) (mkJwtUser "U1" USER)
                        (mkVerifyBody "PA1" "TXN124" FAILED)) library2).2).1
  = 201%nat.
Proof.
  apply (verify_FAILED_then_initiate default_env (mkGen "-" 30)
           (mkGen "PA2" 40) (mkJwtUser "U1" USER)
           (mkVerifyBody "PA1" "TXN124" FAILED) (mkInitiateBody "P1" UPI)
           library2 a_payment (a_job PENDING)); reflexivity.
Defined.

(** * Print jobs *)

Lemma upload_cases g auth body file db :
  asyncHandler (upload g auth body file) db =
  match uploadSchema body with
  | None => (error 400 "Invalid upload data", db)
  | Some (total_pages, cost_per_page) =>
      match file with
      | None => (error 400 "Missing file", db)
      | Some f =>
          match printJob db !! generated_id g with
          | Some _ => (error 500 "Internal server error", db)
          | None =>
              let job := PrintJob.mk (userId auth) (originalname f)
                           (filename f) total_pages cost_per_page
                           (total_pages * cost_per_page) PENDING (now g) in
              (json 201 (print_job (generated_id g, job)),
               mkDB (book db) (user db) (bookIssue db)
                    (<[generated_id g := job]> (printJob db)) (payment db))
          end
      end
  end.
Proof.
  unfold asyncHandler, upload.
  destruct (uploadSchema body) as [[pages cost]|]; [|done].
  destruct file as [f|]; [|done]. simpl. unfold printJob_create.
  by destruct (printJob db !! generated_id g).
Qed.

Lemma uploadSchema_Some body pages cost :
  uploadSchema body = Some (pages, cost) →
  pages = upload_total_pages body
  ∧ cost = default 2 (upload_cost_per_page body)
  ∧ 1 ≤ pages ∧ 1 ≤ cost.
Proof.
  unfold uploadSchema. destruct (_ && _) eqn:Hv; [|done].
  apply andb_prop in Hv as [H1%bool_decide_eq_true H2%bool_decide_eq_true].
  by intros [= <- <-].
Qed.

(** X15. An upload with valid figures and a file, under a free key, creates a
    print job that belongs to the requester, is PENDING, and costs
    total_pages times cost_per_page (2 per page when no price is given),
    which is at least the number of pages; nothing else changes. *)
Theorem upload_creates g auth body f db pages cost :
  uploadSchema body = Some (pages, cost) →
  pages * cost < 2 ^ 53 →
  printJob db !! generated_id g = None →
  asyncHandler (upload g auth body (Some f)) db
  = (json 201
       (mkPrintJobJson (generated_id g) (originalname f) pages cost
          (pages * cost) PENDING (now g)),
     mkDB (book db) (user db) (bookIssue db)
          (<[generated_id g :=
               PrintJob.mk (userId auth) (originalname f) (filename f)
                 pages cost (pages * cost) PENDING (now g)]> (printJob db))
          (payment db))
  ∧ pages = upload_total_pages body
  ∧ cost = default 2 (upload_cost_per_page body)
  ∧ 1 ≤ pages ≤ pages * cost.
Proof.
  intros Hv _ Hfresh. rewrite upload_cases, Hv, Hfresh.
  apply uploadSchema_Some in Hv as (Hp & Hc & H1 & H2).
  split_and!; [done..|nia].
Qed.

Lemma upload_creates_witness :
  asyncHandler (upload (mkGen "P2" 50) (mkJwtUser "U2" USER)
                  (mkUploadBody 10 None)
                  (upload_single 49 (Some "my notes.pdf"))) library0
  = (json 201 (mkPrintJobJson "P2" "my notes.pdf" 10 2 20 PENDING 50),
     mkDB (book library0) (user library0) (bookIssue library0)
          (<["P2" := PrintJob.mk "U2" "my notes.pdf" "49_my_notes.pdf"
                       10 2 20 PENDING 50]> (printJob library0))
          (payment library0)).
Proof.
  apply (upload_creates (mkGen "P2" 50) (mkJwtUser "U2" USER)
           (mkUploadBody 10 None)
           (mkFile "my notes.pdf" "49_my_notes.pdf") library0 10 2).
  - reflexivity.
  - reflexivity.
  - reflexivity.
Defined.

Lemma safeParse_valid form : is_Some (safeParse form) ↔ valid_form form.
Proof.
  unfold safeParse, coerce, valid_form, valid_figure.
  destruct (integer_value (form_total_pages form)) as [pages|] eqn:Hpages;
    [|split; [by intros []|intros [(z & [=] & _) _]]].
  destruct (form_cost_per_page form) as [n|] eqn:Hn.
  - destruct (integer_value n) as [cost|] eqn:Hcost; simpl.
    + unfold uploadSchema. simpl. split.
      * destruct (_ && _) eqn:Hv; [|by intros []]. intros _.
        apply andb_prop in Hv
          as [H1%bool_decide_eq_true H2%bool_decide_eq_true].
        split; [by exists pages|].
        intros ? [= <-]. by exists cost.
      * intros [(z & [= <-] & H1) H2].
        destruct (H2 n eq_refl) as (c & Hc & H3).
        assert (c = cost) as -> by congruence.
        rewrite !bool_decide_eq_true_2 by done. by eexists.
    + split; [by intros []|]. intros [_ H2].
      destruct (H2 n eq_refl) as (c & Hc & _). congruence.
  - simpl. unfold uploadSchema. simpl. split.
    + destruct (_ && _) eqn:Hv; [|by intros []]. intros _.
      apply andb_prop in Hv as [H1%bool_decide_eq_true _].
      split; [by exists pages|done].
    + intros [(z & [= <-] & H1) _].
      rewrite !bool_decide_eq_true_2 by done. by eexists.
Qed.

Lemma upload_request_cases g auth form file db :
  asyncHandler (upload_request g auth form file) db =
  match safeParse form with
  | None => (error 400 "Invalid upload data", db)
  | Some (total_pages, cost_per_page) =>
      match file with
      | None => (error 400 "Missing file", db)
      | Some f =>
          match printJob db !! generated_id g with
          | Some _ => (error 500 "Internal server error", db)
          | None =>
              let job := PrintJob.mk (userId auth) (originalname f)
                           (filename f) total_pages cost_per_page
                           (total_pages * cost_per_page) PENDING (now g) in
              (json 201 (print_job (generated_id g, job)),
               mkDB (book db) (user db) (bookIssue db)
                    (<[generated_id g := job]> (printJob db)) (payment db))
          end
      end
  end.
Proof.
  unfold upload_request, safeParse.
  destruct (coerce form) as [body|]; [|done]. apply upload_cases.
Qed.

(** X16. An upload is answered 400 "Invalid upload data" exactly when
    total_pages is not an integer of at least 1 (a fraction, not a
    number, left out) or cost_per_page is given and is not one; the
    figures are looked at before the file.  Valid figures without a file
    are answered 400 "Missing file".  Unless the answer is 201 the store
    is as it was. *)
Theorem upload_rejections g auth form file db :
  safe_form form →
  ((asyncHandler (upload_request g auth form file) db).1
   = error 400 "Invalid upload data" ↔ ¬ valid_form form)
  ∧ (valid_form form → file = None →
     asyncHandler (upload_request g auth form file) db
     = (error 400 "Missing file", db))
  ∧ (status_code (asyncHandler (upload_request g auth form file) db).1
     ≠ 201%nat →
     (asyncHandler (upload_request g auth form file) db).2 = db).
Proof.
  intros _. rewrite upload_request_cases.
  pose proof (safeParse_valid form) as Hvalid.
  destruct (safeParse form) as [[pages cost]|].
  - assert (valid_form form) as Hv by (by apply Hvalid).
    split_and!.
    + split; [|done]. destruct file as [f|]; [|done].
      by destruct (printJob db !! generated_id g).
    + by intros _ ->.
    + destruct file as [f|]; [|done].
      by destruct (printJob db !! generated_id g).
  - assert (¬ valid_form form) as Hv.
    { intros Hv%Hvalid. by destruct Hv. }
    by split_and!.
Qed.

Lemma upload_rejections_witness :
  (asyncHandler (upload_request (mkGen "P2" 50) (mkJwtUser "U2" USER)
                   (mkUploadForm (Double 5 (-1)) None)
                   (Some (mkFile "a.pdf" "49_a.pdf"))) library0).1
  = error 400 "Invalid upload data"
  ∧ (asyncHandler (upload_request (mkGen "P2" 50) (mkJwtUser "U2" USER)
                     (mkUploadForm NaN (Some (Double 2 0)))
                     (Some (mkFile "a.pdf" "49_a.pdf"))) library0).1
    = error 400 "Invalid upload data"
  ∧ asyncHandler (upload_request (mkGen "P2" 50) (mkJwtUser "U2" USER)
                    (mkUploadForm (Double 5 1) None) None) library0
    = (error 400 "Missing file", library0).
Proof.
  split_and!.
  - apply (upload_rejections (mkGen "P2" 50) (mkJwtUser "U2" USER)
             (mkUploadForm (Double 5 (-1)) None)
             (Some (mkFile "a.pdf" "49_a.pdf")) library0).
    + split; [by intros z [=]|by intros n [=]].
    + intros [(z & [=] & _) _].
  - apply (upload_rejections (mkGen "P2" 50) (mkJwtUser "U2" USER)
             (mkUploadForm NaN (Some (Double 2 0)))
             (Some (mkFile "a.pdf" "49_a.pdf")) library0).
    + split; [by intros z [=]|]. intros n [= <-] z [= <-]. reflexivity.
    + intros [(z & [=] & _) _].
  - apply (upload_rejections (mkGen "P2" 50) (mkJwtUser "U2" USER)
             (mkUploadForm (Double 5 1) None) None library0).
    + split; [|by intros n [=]]. intros z [= <-]. reflexivity.
    + split; [|by intros n [=]]. exists 10. split; [reflexivity|lia].
    + reflexivity.
Defined.

(** X17. From upload to payment: the requester who uploaded a job can initiate
    its payment at once, and the URI asks for total_pages times
    cost_per_page with two decimals; anyone else is answered Forbidden. *)
Theorem upload_then_initiate env g g' auth auth' body f method db pages cost :
  uploadSchema body = Some (pages, cost) →
  pages * cost < 2 ^ 53 →
  printJob db !! generated_id g = None →
  payment db !! generated_id g' = None →
  asyncHandler (initiate env g' auth' (mkInitiateBody (generated_id g) method))
    (asyncHandler (upload g auth body (Some f)) db).2
  = if decide (userId auth' = userId auth)
    then
      (json 201
         (mkInitiateJson (generated_id g') method PENDING (now g')
            ("upi://pay?pa=" +:+ urlencode (UPI_VPA env)
             +:+ "&pn=" +:+ urlencode (UPI_PAYEE_NAME env)
             +:+ "&am=" +:+ pretty (pages * cost) +:+ ".00"
             +:+ "&cu=INR"
             +:+ "&tn=Print+job+" +:+ urlencode (generated_id g)
             +:+ "&tr=" +:+ urlencode (generated_id g'))),
       mkDB (book db) (user db) (bookIssue db)
            (<[generated_id g :=
                 PrintJob.mk (userId auth) (originalname f) (filename f)
                   pages cost (pages * cost) PENDING (now g)]> (printJob db))
            (<[generated_id g' :=
                 Payment.mk (userId auth') (generated_id g) method None
                   PENDING None (now g')]> (payment db)))
    else
      (error 403 "Forbidden", (asyncHandler (upload g auth body (Some f)) db).2).
Proof.
  intros Hv Hsafe Hfresh Hfresh'. rewrite upload_cases, Hv, Hfresh. simpl.
  apply uploadSchema_Some in Hv as (_ & _ & Hpages & Hcost).
  rewrite initiate_cases. simpl. rewrite lookup_insert_eq. simpl.
  destruct (decide (userId auth' = userId auth)) as [Ho|Ho].
  - rewrite bool_decide_eq_false_2 by (by intros []).
    simpl. rewrite Hfresh'.
    rewrite buildUpiPayUri_eq. simpl.
    rewrite urlencode_toFixed2_safe by (rewrite Z.abs_eq by nia; done).
    by rewrite urlencode_app, string_app_assoc.
  - by rewrite bool_decide_eq_true_2.
Qed.

Lemma upload_then_initiate_witness :
  (asyncHandler (initiate default_env (mkGen "PA9" 60) (mkJwtUser "U2" USER)
                   (mkInitiateBody "P2" UPI))
     (asyncHandler (upload (mkGen "P2" 50) (mkJwtUser "U2" USER)
                      (mkUploadBody 10 None)
                      (Some (mkFile "a.pdf" "49_a.pdf"))) library0).2).1
  = json 201
      (mkInitiateJson "PA9" UPI PENDING 60
         "upi://pay?pa=library%40upi&pn=E-Library&am=20.00&cu=INR&tn=Print+job+P2&tr=PA9").
Proof.
  exact (f_equal fst
           (upload_then_initiate default_env (mkGen "P2" 50) (mkGen "PA9" 60)
              (mkJwtUser "U2" USER) (mkJwtUser "U2" USER)
              (mkUploadBody 10 None) (mkFile "a.pdf" "49_a.pdf") UPI library0
              10 2 eq_refl eq_refl eq_refl eq_refl)).
Defined.

(** X18. Only the owner sees or confirms a print job: preview and confirm
    answer the owner with the job, anyone else (administrators included)
    with Forbidden, and a job that does not exist with NotFound; neither
    writes to the store. *)
Theorem preview_confirm_owner_only auth print_id db :
  match printJob db !! print_id with
  | None =>
      asyncHandler (preview auth print_id) db
      = (error 404 "Print job not found", db)
      ∧ asyncHandler (confirm auth print_id) db
        = (error 404 "Print job not found", db)
  | Some job =>
      if decide (PrintJob.user_id job = userId auth)
      then
        asyncHandler (preview auth print_id) db
        = (json 200
             (mkPrintJobJson print_id (PrintJob.file_name job)
                (PrintJob.total_pages job) (PrintJob.cost_per_page job)
                (PrintJob.total_cost job) (PrintJob.payment_status job)
                (PrintJob.created_at job)), db)
        ∧ asyncHandler (confirm auth print_id) db
          = (json 200 (true, print_id), db)
      else
        asyncHandler (preview auth print_id) db = (error 403 "Forbidden", db)
        ∧ asyncHandler (confirm auth print_id) db
          = (error 403 "Forbidden", db)
  end.
Proof.
  unfold asyncHandler, preview, confirm. simpl.
  destruct (printJob db !! print_id) as [job|]; [|done].
  destruct (decide (PrintJob.user_id job = userId auth)) as [Ho|Ho].
  - by rewrite bool_decide_eq_false_2 by (by intros []).
  - by rewrite bool_decide_eq_true_2.
Qed.

(** ** GET /print/history *)

#[local] Instance created_at_desc_total : Total created_at_desc.
Proof. intros x y. unfold created_at_desc. lia. Qed.

#[local] Instance created_at_desc_trans : Transitive created_at_desc.
Proof. intros x y z. unfold created_at_desc. lia. Qed.

(** X19. The print history of a requester has one item for each print job of
    that requester and no other, no job twice, the newest first.  The
    store is only read. *)
Theorem history_spec auth db :
  ∃ items,
    asyncHandler (history auth) db = (json 200 items, db)
    ∧ StronglySorted (λ x y, pj_created_at y ≤ pj_created_at x) items
    ∧ NoDup (pj_print_id <$> items)
    ∧ ∀ it, it ∈ items ↔
            ∃ id job,
              printJob db !! id = Some job
              ∧ PrintJob.user_id job = userId auth
              ∧ it = mkPrintJobJson id (PrintJob.file_name job)
                       (PrintJob.total_pages job) (PrintJob.cost_per_page job)
                       (PrintJob.total_cost job) (PrintJob.payment_status job)
                       (PrintJob.created_at job).
Proof.
  unfold asyncHandler, history. simpl.
  set (mine := filter _ (map_to_list (printJob db))).
  eexists. split; [done|]. split_and!.
  - apply StronglySorted_fmap with (R1 := created_at_desc); [done|].
    apply StronglySorted_merge_sort; apply _.
  - rewrite <-list_fmap_compose.
    rewrite (list_fmap_ext (pj_print_id ∘ print_job) fst) by done.
    rewrite merge_sort_Permutation.
    apply NoDup_fmap_2_strong; [|apply NoDup_filter, NoDup_map_to_list].
    intros [k1 v1] [k2 v2] [_ H1%elem_of_map_to_list]%list_elem_of_filter
      [_ H2%elem_of_map_to_list]%list_elem_of_filter. simpl.
    intros <-. congruence.
  - intros it. rewrite list_elem_of_fmap. split.
    + intros ([id job] & -> & Hin). rewrite merge_sort_Permutation in Hin.
      apply list_elem_of_filter in Hin as [Ho Hin%elem_of_map_to_list].
      by exists id, job.
    + intros (id & job & Hjob & Ho & ->). exists (id, job). split; [done|].
      rewrite merge_sort_Permutation. apply list_elem_of_filter.
      split; [done|]. by apply elem_of_map_to_list.
Qed.

(** ** The stored file name *)

Lemma string_forall_app P s1 s2 :
  string_forall P (s1 +:+ s2) = string_forall P s1 && string_forall P s2.
Proof.
  induction s1 as [|c s1 IH]; [done|].
  change (string_forall P (String c (s1 +:+ s2))
          = string_forall P (String c s1) && string_forall P s2).
  simpl. by rewrite IH, andb_assoc.
Qed.

Lemma string_forall_impl (P Q : ascii → bool) s :
  (∀ c, P c = true → Q c = true) →
  string_forall P s = true → string_forall Q s = true.
Proof.
  intros HPQ. induction s as [|c s IH]; [done|]. simpl.
  intros [Hc Hs]%andb_prop. by rewrite (HPQ c Hc), IH.
Qed.

Lemma pretty_N_go_forall P x s :
  (∀ d, P (pretty_N_char d) = true) →
  string_forall P s = true → string_forall P (pretty_N_go x s) = true.
Proof.
  intros Hdigit. revert s.
  induction (N.lt_wf_0 x) as [x _ IH]; intros s Hs.
  destruct (decide (x = 0)%N) as [->|Hx]; [done|].
  rewrite pretty_N_go_step by lia.
  apply IH; [apply N.div_lt; lia|]. simpl. by rewrite Hdigit.
Qed.

Lemma pretty_Z_forall P (n : Z) :
  (∀ d, P (pretty_N_char d) = true) → P "-"%char = true →
  string_forall P (pretty n) = true.
Proof.
  intros Hdigit Hdash. destruct n as [|p|p].
  - change (P "0"%char && true = true). rewrite andb_true_r.
    apply (Hdigit 0%N).
  - unfold pretty, pretty_Z, pretty, pretty_positive, pretty, pretty_N.
    case_decide; [done|]. by apply pretty_N_go_forall.
  - unfold pretty, pretty_Z, pretty, pretty_positive, pretty, pretty_N.
    case_decide; [done|].
    change (string_forall P (String "-" (pretty_N_go (N.pos p) "")) = true).
    simpl. rewrite Hdash. by apply pretty_N_go_forall.
Qed.

Lemma safeName_safe name : string_forall safe_char (safeName name) = true.
Proof.
  induction name as [|c name IH]; [done|]. simpl. rewrite IH, andb_true_r.
  by destruct (safe_char c) eqn:Hc.
Qed.

(** X20. Whatever name a file is uploaded under, the name it is stored under
    is made of letters, digits, dots, underscores and dashes only: it has
    no slash, no backslash, no space and no NUL.  The original name is
    kept character for character where it was of that kind already, and
    keeps its length in any case. *)
Theorem multer_filename_safe date_now name :
  string_forall safe_char (multer_filename date_now name) = true
  ∧ string_forall
      (λ c, negb (bool_decide (c = "/"%char ∨ c = "\"%char ∨ c = " "%char
                               ∨ c = "000"%char)))
      (multer_filename date_now name) = true
  ∧ String.length (safeName name) = String.length name
  ∧ (string_forall safe_char name = true → safeName name = name).
Proof.
  assert (string_forall safe_char (multer_filename date_now name) = true)
    as Hsafe.
  { unfold multer_filename. rewrite !string_forall_app.
    rewrite pretty_Z_forall, safeName_safe; [done| |done].
    intros d. unfold pretty_N_char. by repeat case_match. }
  split_and!; [done| | |].
  - revert Hsafe. apply string_forall_impl. intros c Hc.
    apply negb_true_iff, bool_decide_eq_false.
    intros [-> | [-> | [-> | ->]]]; discriminate.
  - clear Hsafe. induction name as [|c name IH]; [done|].
    change (S (String.length (safeName name)) = S (String.length name)).
    by rewrite IH.
  - clear Hsafe. induction name as [|c name IH]; [done|]. simpl.
    intros [-> ->%IH]%andb_prop. done.
Qed.

(** Without a valid token the upload route stores nothing. *)
Lemma POST_print_upload_401 g date_now cred body part db :
  cred = NoToken ∨ cred = BadToken →
  status_code (asyncHandler (POST_print_upload g date_now cred body part) db).1
  = 401%nat
  ∧ (asyncHandler (POST_print_upload g date_now cred body part) db).2 = db.
Proof. by intros [-> | ->]. Qed.

(** * The encoding of URI values *)

(** The facts about single bytes the round trip rests on. *)
Lemma urlencode_char_facts c :
  (if unreserved c
   then negb (bool_decide (c = "+"%char)) && negb (bool_decide (c = "%"%char))
   else true) = true
  ∧ hex_value (hex_digit (nat_of_ascii c / 16)) = Some (nat_of_ascii c / 16)%nat
  ∧ hex_value (hex_digit (nat_of_ascii c mod 16))
    = Some (nat_of_ascii c mod 16)%nat
  ∧ ascii_of_nat (16 * (nat_of_ascii c / 16) + nat_of_ascii c mod 16) = c.
Proof.
  destruct c as [[] [] [] [] [] [] [] []]; vm_compute; by repeat split.
Qed.

Lemma urldecode_percent h l rest :
  urldecode (String "%" (String h (String l rest)))
  = match hex_value h, hex_value l with
    | Some hi, Some lo => String (ascii_of_nat (16 * hi + lo)) (urldecode rest)
    | _, _ => String "%" (urldecode (String h (String l rest)))
    end.
Proof. reflexivity. Qed.

Lemma urlencode_char_roundtrip c rest :
  urldecode ((if unreserved c then String c ""
              else if bool_decide (c = " "%char) then "+"
              else percent_encode c) +:+ rest)
  = String c (urldecode rest).
Proof.
  destruct (urlencode_char_facts c) as (Hun & Hhi & Hlo & Hc).
  destruct (unreserved c).
  - apply andb_prop in Hun as [Hp%negb_true_iff Hq%negb_true_iff].
    change (urldecode (String c rest) = String c (urldecode rest)).
    simpl. by rewrite Hp, Hq.
  - case_bool_decide as Hsp.
    + subst c. reflexivity.
    + change (urldecode
                (String "%" (String (hex_digit (nat_of_ascii c / 16))
                   (String (hex_digit (nat_of_ascii c mod 16)) rest)))
              = String c (urldecode rest)).
      by rewrite urldecode_percent, Hhi, Hlo, Hc.
Qed.

Lemma urldecode_urlencode s : urldecode (urlencode s) = s.
Proof.
  induction s as [|c s IH]; [done|].
  change (urlencode (String c s))
    with ((if unreserved c then String c ""
           else if bool_decide (c = " "%char) then "+"
           else percent_encode c) +:+ urlencode s).
  by rewrite urlencode_char_roundtrip, IH.
Qed.

(** X21. Values survive the URI: what is encoded can be read back exactly, so
    two different payment references or notes never give the same text;
    and an encoded value is made of letters, digits and [*-._+%] only, so
    it cannot contain the [&], [=], [?] or [#] that delimit the URI. *)
Theorem urlencode_roundtrip s :
  urldecode (urlencode s) = s
  ∧ (∀ s', urlencode s = urlencode s' → s = s')
  ∧ string_forall
      (λ c, unreserved c || bool_decide (c = "+"%char)
            || bool_decide (c = "%"%char)) (urlencode s) = true
  ∧ string_forall
      (λ c, negb (bool_decide (c = "&"%char ∨ c = "="%char ∨ c = "?"%char
                               ∨ c = "#"%char))) (urlencode s) = true.
Proof.
  assert (string_forall
            (λ c, unreserved c || bool_decide (c = "+"%char)
                  || bool_decide (c = "%"%char)) (urlencode s) = true)
    as Halpha.
  { induction s as [|c s IH]; [done|].
    change (urlencode (String c s))
      with ((if unreserved c then String c ""
             else if bool_decide (c = " "%char) then "+"
             else percent_encode c) +:+ urlencode s).
    rewrite string_forall_app, IH, andb_true_r. clear IH.
    destruct c as [[] [] [] [] [] [] [] []]; vm_compute; reflexivity. }
  split_and!; [apply urldecode_urlencode| |done|].
  - intros s' Heq.
    by rewrite <-(urldecode_urlencode s), Heq, urldecode_urlencode.
  - revert Halpha. apply string_forall_impl. intros c Hc.
    apply negb_true_iff, bool_decide_eq_false.
    intros [-> | [-> | [-> | ->]]]; discriminate.
Qed.

(** * The bearer token *)

Lemma split_nonempty sep s : split sep s ≠ [].
Proof.
  destruct s as [|c s]; [done|]. simpl. case_bool_decide; [done|].
  by destruct (split sep s).
Qed.

Lemma join_split sep s : join sep (split sep s) = s.
Proof.
  induction s as [|c s IH]; [done|]. simpl.
  pose proof (split_nonempty sep s) as Hne.
  case_bool_decide as Hc.
  - subst c. destruct (split sep s) as [|p ps] eqn:Hs; [done|].
    change (join sep ("" :: p :: ps)) with (String sep (join sep (p :: ps))).
    by rewrite IH.
  - destruct (split sep s) as [|p ps] eqn:Hs; [done|].
    destruct ps as [|p' ps]; simpl in *; by rewrite <-IH.
Qed.

Lemma split_pieces sep s :
  Forall (λ p, string_forall (not_char sep) p = true) (split sep s).
Proof.
  induction s as [|c s IH]; [by repeat constructor|]. simpl.
  case_bool_decide as Hc; [by constructor|].
  pose proof (split_nonempty sep s) as Hne.
  destruct (split sep s) as [|p ps]; [done|].
  apply Forall_cons in IH as [Hp Hps]. constructor; [|done].
  simpl. rewrite Hp. unfold not_char. by rewrite bool_decide_eq_false_2.
Qed.

Lemma split_one sep s :
  string_forall (not_char sep) s = true → split sep s = [s].
Proof.
  induction s as [|c s IH]; [done|]. simpl.
  intros [Hc Hs]%andb_prop. apply negb_true_iff, bool_decide_eq_false in Hc.
  rewrite bool_decide_eq_false_2 by done. by rewrite IH.
Qed.

Lemma split_app sep a b :
  string_forall (not_char sep) a = true →
  split sep (a +:+ String sep b) = a :: split sep b.
Proof.
  induction a as [|c a IH].
  - intros _. change (split sep (String sep b) = "" :: split sep b).
    simpl. by rewrite bool_decide_eq_true_2.
  - simpl. intros [Hc Ha]%andb_prop.
    apply negb_true_iff, bool_decide_eq_false in Hc.
    change (split sep (String c (a +:+ String sep b))
            = String c a :: split sep b).
    simpl. rewrite bool_decide_eq_false_2 by done. by rewrite IH.
Qed.

Lemma lower_space c : lower c = " "%char ↔ c = " "%char.
Proof.
  destruct c as [[] [] [] [] [] [] [] []]; vm_compute; split; congruence.
Qed.

Lemma toLowerCase_no_space s :
  string_forall (not_char " ") (toLowerCase s)
  = string_forall (not_char " ") s.
Proof.
  induction s as [|c s IH]; [done|]. simpl. rewrite IH. f_equal.
  unfold not_char. f_equal. apply bool_decide_ext, lower_space.
Qed.

Lemma bearer_no_space scheme :
  toLowerCase scheme = "bearer" →
  string_forall (not_char " ") scheme = true.
Proof. intros H. by rewrite <-toLowerCase_no_space, H. Qed.

Lemma string_app_nil_r (s : string) : s +:+ "" = s.
Proof.
  induction s as [|c s IH]; [done|].
  change (String c (s +:+ "") = String c s). by rewrite IH.
Qed.

Lemma extractTokenFromRequest_accepts scheme token rest :
  toLowerCase scheme = "bearer" →
  token ≠ "" →
  string_forall (not_char " ") token = true →
  rest = "" ∨ (∃ r, rest = String " " r) →
  extractTokenFromRequest (Some (scheme +:+ String " " (token +:+ rest)))
  = Some token.
Proof.
  intros Hs Ht Htok Hrest. unfold extractTokenFromRequest.
  rewrite bool_decide_eq_false_2 by (by destruct scheme).
  rewrite split_app by (by apply bearer_no_space).
  rewrite (bool_decide_eq_true_2 (toLowerCase scheme = "bearer")) by done.
  destruct Hrest as [->|[r ->]].
  - rewrite string_app_nil_r, split_one by done. simpl.
    by rewrite (bool_decide_eq_false_2 (token = "")).
  - rewrite split_app by done. simpl.
    by rewrite (bool_decide_eq_false_2 (token = "")).
Qed.

(** X22. The token taken from an Authorization header is the text between the
    first and the second space, provided the text before the first space
    is "bearer" in any mix of cases and the token is not empty; what
    follows a second space is ignored.  Every other header, and a missing
    header, give no token. *)
Theorem extractTokenFromRequest_spec header token :
  extractTokenFromRequest header = Some token
  ↔ ∃ scheme rest,
      header = Some (scheme +:+ String " " (token +:+ rest))
      ∧ toLowerCase scheme = "bearer"
      ∧ token ≠ ""
      ∧ string_forall (not_char " ") token = true
      ∧ (rest = "" ∨ ∃ r, rest = String " " r).
Proof.
  split.
  - destruct header as [h|]; [|done]. simpl.
    case_bool_decide as Hh; [done|].
    pose proof (join_split " " h) as Hjoin.
    pose proof (split_pieces " " h) as Hpieces.
    destruct (split " " h) as [|scheme pieces]; [done|].
    case_bool_decide as Hs; [|done]. simpl.
    destruct pieces as [|t more]; [done|]. simpl.
    case_bool_decide as Ht; [done|]. simpl. intros [= ->].
    apply Forall_cons in Hpieces as [_ [Htok _]%Forall_cons].
    destruct more as [|p more].
    + exists scheme, "". rewrite string_app_nil_r.
      split_and!; [by rewrite <-Hjoin|done..|by left].
    + exists scheme, (String " " (join " " (p :: more))).
      split_and!; [by rewrite <-Hjoin|done..|by right; eexists].
  - intros (scheme & rest & -> & Hs & Ht & Htok & Hrest).
    by apply extractTokenFromRequest_accepts.
Qed.

(** X23. What the page sends is what the server reads: a token without spaces
    that the page holds reaches the identity provider unchanged, and a
    page without a token is told that the token is missing. *)
Theorem page_token_reaches_provider verifyAccessToken token :
  token ≠ "" →
  string_forall (not_char " ") token = true →
  credential verifyAccessToken (authorization_header (Some token))
  = match verifyAccessToken token with
    | Some payload => Token payload
    | None => BadToken
    end
  ∧ credential verifyAccessToken (authorization_header None) = NoToken.
Proof.
  intros Ht Htok. split; [|done].
  pose proof (extractTokenFromRequest_accepts "Bearer" token ""
                eq_refl Ht Htok (or_introl eq_refl)) as Hextract.
  rewrite string_app_nil_r in Hextract.
  unfold credential, authorization_header, truthy.
  rewrite (bool_decide_eq_false_2 (token = "")) by done. cbn [negb].
  change ((λ t, "Bearer " +:+ t) <$> Some token)
    with (Some ("Bearer" +:+ String " " token)).
  by rewrite Hextract.
Qed.

Lemma page_token_reaches_provider_witness :
  credential (λ t, if bool_decide (t = "a.b.c")
                   then Some (mkJwtUser "U1" USER) else None)
    (authorization_header (Some "a.b.c"))
  = Token (mkJwtUser "U1" USER).
Proof.
  exact (proj1 (page_token_reaches_provider
                  (λ t, if bool_decide (t = "a.b.c")
                        then Some (mkJwtUser "U1" USER) else None)
                  "a.b.c" ltac:(discriminate) eq_refl)).
Defined.

(** * Passwords *)

Lemma hex_byte_facts c :
  hex_value (hex_digit_lower (nat_of_ascii c / 16))
  = Some (nat_of_ascii c / 16)%nat
  ∧ hex_value (hex_digit_lower (nat_of_ascii c mod 16))
    = Some (nat_of_ascii c mod 16)%nat
  ∧ ascii_of_nat (16 * (nat_of_ascii c / 16) + nat_of_ascii c mod 16) = c.
Proof.
  destruct c as [[] [] [] [] [] [] [] []]; vm_compute; by repeat split.
Qed.

Lemma hex_byte_roundtrip c rest :
  Buffer_from_hex
    (String (hex_digit_lower (nat_of_ascii c / 16))
       (String (hex_digit_lower (nat_of_ascii c mod 16)) rest))
  = c :: Buffer_from_hex rest.
Proof.
  destruct (hex_byte_facts c) as (Hhi & Hlo & Hc).
  change (match hex_value (hex_digit_lower (nat_of_ascii c / 16)),
                hex_value (hex_digit_lower (nat_of_ascii c mod 16)) with
          | Some hi, Some lo =>
              ascii_of_nat (16 * hi + lo) :: Buffer_from_hex rest
          | _, _ => []
          end = c :: Buffer_from_hex rest).
  by rewrite Hhi, Hlo, Hc.
Qed.

Lemma Buffer_from_hex_toString_hex b : Buffer_from_hex (toString_hex b) = b.
Proof.
  induction b as [|c b IH]; [done|].
  change (toString_hex (c :: b))
    with (String (hex_digit_lower (nat_of_ascii c / 16))
            (String (hex_digit_lower (nat_of_ascii c mod 16))
               (toString_hex b))).
  by rewrite hex_byte_roundtrip, IH.
Qed.

Lemma toString_hex_no_colon b :
  string_forall (not_char ":") (toString_hex b) = true.
Proof.
  induction b as [|c b IH]; [done|].
  change (toString_hex (c :: b))
    with (String (hex_digit_lower (nat_of_ascii c / 16))
            (String (hex_digit_lower (nat_of_ascii c mod 16))
               (toString_hex b))).
  simpl. rewrite IH, !andb_true_r. clear IH.
  destruct c as [[] [] [] [] [] [] [] []]; vm_compute; reflexivity.
Qed.

Lemma toString_hex_nonempty b : b ≠ [] → toString_hex b ≠ "".
Proof. by destruct b. Qed.

Section password_properties.
Variable scrypt : string → string → nat → Buffer.
Hypothesis scrypt_length : ∀ password salt keylen,
  length (scrypt password salt keylen) = keylen.

Lemma verifyPassword_salt_key password salt key :
  salt ≠ "" → key ≠ "" →
  string_forall (not_char ":") salt = true →
  string_forall (not_char ":") key = true →
  verifyPassword scrypt password (salt +:+ String ":" key)
  = timingSafeEqual (Buffer_from_hex key) (scrypt password salt KEY_LEN).
Proof.
  intros Hs Hk Hsc Hkc. unfold verifyPassword.
  rewrite split_app, split_one by done. simpl.
  by rewrite !bool_decide_eq_false_2 by done.
Qed.

Lemma verifyPassword_of_hash randomBytes16 password password' :
  length randomBytes16 = 16%nat →
  verifyPassword scrypt password'
    (hashPassword scrypt randomBytes16 password)
  = Some (bool_decide
            (scrypt password (toString_hex randomBytes16) KEY_LEN
             = scrypt password' (toString_hex randomBytes16) KEY_LEN)).
Proof.
  intros Hlen.
  change (hashPassword scrypt randomBytes16 password)
    with (toString_hex randomBytes16
          +:+ String ":" (toString_hex
                (scrypt password (toString_hex randomBytes16) KEY_LEN))).
  rewrite verifyPassword_salt_key.
  - rewrite Buffer_from_hex_toString_hex. unfold timingSafeEqual.
    by rewrite !scrypt_length, bool_decide_eq_true_2.
  - apply toString_hex_nonempty. by destruct randomBytes16.
  - apply toString_hex_nonempty. intros Hnil.
    pose proof (scrypt_length password (toString_hex randomBytes16) KEY_LEN)
      as Hl. by rewrite Hnil in Hl.
  - apply toString_hex_no_colon.
  - apply toString_hex_no_colon.
Qed.

Lemma hashPassword_nonempty randomBytes16 password :
  hashPassword scrypt randomBytes16 password ≠ "".
Proof. unfold hashPassword. by destruct (toString_hex randomBytes16). Qed.

(** X24. A password is verified against its own hash, whatever the salt; any
    other password is verified against it only if the key derivation
    gives both the same key under that salt. *)
Theorem verifyPassword_hashPassword randomBytes16 password password' :
  length randomBytes16 = 16%nat →
  verifyPassword scrypt password
    (hashPassword scrypt randomBytes16 password) = Some true
  ∧ verifyPassword scrypt password'
      (hashPassword scrypt randomBytes16 password)
    = Some (bool_decide
              (scrypt password (toString_hex randomBytes16) KEY_LEN
               = scrypt password' (toString_hex randomBytes16) KEY_LEN)).
Proof.
  intros Hlen. rewrite !verifyPassword_of_hash by done.
  by rewrite bool_decide_eq_true_2.
Qed.

(** X25. A stored hash that is not of the form salt:key is never verified: a
    hash without a colon, with nothing before it or with nothing after it
    gives false.  A hash whose key part does not decode to 64 bytes makes
    the comparison throw. *)
Theorem verifyPassword_malformed password salt key :
  string_forall (not_char ":") salt = true →
  string_forall (not_char ":") key = true →
  verifyPassword scrypt password salt = Some false
  ∧ verifyPassword scrypt password (String ":" key) = Some false
  ∧ verifyPassword scrypt password (salt +:+ ":") = Some false
  ∧ (salt ≠ "" → key ≠ "" → length (Buffer_from_hex key) ≠ KEY_LEN →
     verifyPassword scrypt password (salt +:+ String ":" key) = None).
Proof.
  intros Hsc Hkc. split_and!.
  - unfold verifyPassword. rewrite split_one by done. simpl.
    by rewrite orb_true_r.
  - unfold verifyPassword.
    change (String ":" key) with ("" +:+ String ":" key).
    by rewrite split_app.
  - unfold verifyPassword.
    change (salt +:+ ":") with (salt +:+ String ":" "").
    rewrite split_app by done. simpl. by rewrite orb_true_r.
  - intros Hs Hk Hlen. rewrite verifyPassword_salt_key by done.
    unfold timingSafeEqual. rewrite scrypt_length.
    by rewrite bool_decide_eq_false_2.
Qed.
End password_properties.

Lemma verifyPassword_hashPassword_witness :
  verifyPassword (λ _ _ n, replicate n "k"%char) "secret1"
    (hashPassword (λ _ _ n, replicate n "k"%char)
       (replicate 16 "s"%char) "secret1") = Some true.
Proof.
  exact (proj1 (verifyPassword_hashPassword
                  (λ _ _ n, replicate n "k"%char)
                  (λ _ _ n, length_replicate n _)
                  (replicate 16 "s"%char) "secret1" "secret1" eq_refl)).
Defined.

Lemma verifyPassword_malformed_witness :
  verifyPassword (λ _ _ n, replicate n "k"%char) "secret1" "ab:zz" = None.
Proof.
  exact (proj2 (proj2 (proj2
           (verifyPassword_malformed (λ _ _ n, replicate n "k"%char)
              (λ _ _ n, length_replicate n _) "secret1" "ab" "zz"
              eq_refl eq_refl)))
           ltac:(discriminate) ltac:(discriminate) ltac:(discriminate)).
Defined.

(** * Accounts *)

Lemma users_with_email_insert_fresh db id u email :
  user db !! id = None →
  filter (λ r : string * User.t, User.email r.2 = email)
         (map_to_list (<[id := u]> (user db)))
  ≡ₚ (if decide (User.email u = email) then [(id, u)] else [])
     ++ users_with_email email db.
Proof.
  intros Hfresh. rewrite (map_to_list_insert _ _ _ Hfresh), filter_cons.
  simpl. by destruct (decide (User.email u = email)).
Qed.

Lemma users_with_email_elem email db id u :
  (id, u) ∈ users_with_email email db
  ↔ user db !! id = Some u ∧ User.email u = email.
Proof.
  unfold users_with_email. rewrite list_elem_of_filter, elem_of_map_to_list.
  simpl. tauto.
Qed.

Lemma users_with_email_nil email db :
  users_with_email email db = []
  ↔ ∀ id u, user db !! id = Some u → User.email u ≠ email.
Proof.
  split.
  - intros Hnil id u Hu He.
    assert ((id, u) ∈ users_with_email email db) as Hin
      by (by apply users_with_email_elem).
    rewrite Hnil in Hin. by apply elem_of_nil in Hin.
  - intros Hnone. destruct (users_with_email email db) as [|[id u] l] eqn:Hl;
      [done|].
    assert ((id, u) ∈ users_with_email email db) as [Hu He]%users_with_email_elem
      by (rewrite Hl; left).
    by destruct (Hnone id u Hu).
Qed.

(** Closes a goal about the accounts of a store that was not written to. *)
Ltac store_untouched :=
  split_and!;
  [ by intros ? u ?; exists u
  | intros ? ? Hnone Hsome; simpl in *; congruence
  | done.. ].

Section accounts_properties.
Variable scrypt : string → string → nat → Buffer.
Variable signAccessToken : JwtUser → string.
Hypothesis scrypt_length : ∀ password salt keylen,
  length (scrypt password salt keylen) = keylen.

Lemma login_cases g salt body db :
  asyncHandler (login scrypt signAccessToken g salt body) db =
  let email := toLowerCase (login_email body) in
  match head (users_with_email email db) with
  | None =>
      let u := User.mk
                 (default (default "User" (head (split "@" email)))
                          (login_name body))
                 email
                 (Some (hashPassword scrypt salt (login_password body)))
                 USER (now g) (Some (now g)) in
      match user db !! generated_id g with
      | None =>
          (json 201
             (mkAuthJson (signAccessToken (mkJwtUser (generated_id g) USER))
                (publicUser (generated_id g, u))),
           with_user <[generated_id g := u]> db)
      | Some _ => (error 500 "Internal server error", db)
      end
  | Some existing =>
      if negb (truthy (User.password existing.2))
      then (error 400
        "Account exists but does not have a password set. Use Google login or contact admin.",
            db)
      else
        match verifyPassword scrypt (login_password body)
                (default "" (User.password existing.2)) with
        | None => (error 500 "Internal server error", db)
        | Some false => (error 401 "Invalid email or password", db)
        | Some true =>
            match user db !! existing.1 with
            | None => (error 500 "Internal server error", db)
            | Some u =>
                (json 200
                   (mkAuthJson
                      (signAccessToken (mkJwtUser existing.1 (User.role u)))
                      (publicUser
                         (existing.1, set_last_login (Some (now g)) u))),
                 with_user <[existing.1 := set_last_login (Some (now g)) u]> db)
            end
        end
  end.
Proof.
  unfold asyncHandler, login. simpl.
  destruct (head (users_with_email _ db)) as [existing|] eqn:Hex.
  - destruct (negb (truthy (User.password existing.2))); [done|].
    destruct (verifyPassword _ _ _) as [[]|]; [|done..].
    simpl. unfold user_update. by destruct (user db !! existing.1).
  - simpl. unfold user_create. simpl.
    destruct (user db !! generated_id g); [done|].
    destruct (users_with_email _ db); [done|done].
Qed.

(** X26. A password login creates nothing but accounts of role USER and never
    changes the role, the e-mail address or the password of an account
    that exists; it writes to no table but the user table. *)
Theorem login_grants_no_role g salt body db :
  (∀ id u, user db !! id = Some u →
     ∃ u', user (asyncHandler (login scrypt signAccessToken g salt body) db).2
             !! id = Some u'
           ∧ User.role u' = User.role u
           ∧ User.email u' = User.email u
           ∧ User.password u' = User.password u)
  ∧ (∀ id u', user db !! id = None →
       user (asyncHandler (login scrypt signAccessToken g salt body) db).2
         !! id = Some u' →
       User.role u' = USER)
  ∧ book (asyncHandler (login scrypt signAccessToken g salt body) db).2
    = book db
  ∧ bookIssue (asyncHandler (login scrypt signAccessToken g salt body) db).2
    = bookIssue db
  ∧ printJob (asyncHandler (login scrypt signAccessToken g salt body) db).2
    = printJob db
  ∧ payment (asyncHandler (login scrypt signAccessToken g salt body) db).2
    = payment db.
Proof.
  rewrite login_cases. simpl.
  destruct (head (users_with_email _ db)) as [[eid eu]|] eqn:Hex; simpl.
  - destruct (negb (truthy (User.password eu))); [store_untouched|].
    destruct (verifyPassword _ _ _) as [[]|]; [|store_untouched..].
    destruct (user db !! eid) as [u0|] eqn:Hu0; [|store_untouched].
    simpl. split_and!; try done.
    + intros id u Hu. rewrite lookup_insert. case_decide as Hid.
      * subst id. rewrite Hu0 in Hu. injection Hu as <-. by eexists.
      * by exists u.
    + intros id u' Hnone. rewrite lookup_insert. case_decide; congruence.
  - destruct (user db !! generated_id g) eqn:Hfresh; [store_untouched|].
    simpl. split_and!; try done.
    + intros id u Hu. rewrite lookup_insert_ne by congruence. by exists u.
    + intros id u' Hnone. rewrite lookup_insert. case_decide; [|congruence].
      by intros [= <-].
Qed.

(** X27. First login, then login again.  The first password login under an
    e-mail address that no account has creates the account; from then on
    a login under that address, in whatever mix of cases, is answered 200
    with the same password and only stamps last_login, and is answered
    401 with a password that derives another key, leaving the store as it
    was. *)
Theorem login_after_first_login g g' salt salt' body body' db :
  length salt = 16%nat →
  users_with_email (toLowerCase (login_email body)) db = [] →
  user db !! generated_id g = None →
  toLowerCase (login_email body') = toLowerCase (login_email body) →
  let u := User.mk
             (default (default "User"
                         (head (split "@" (toLowerCase (login_email body)))))
                      (login_name body))
             (toLowerCase (login_email body))
             (Some (hashPassword scrypt salt (login_password body)))
             USER (now g) (Some (now g)) in
  let db1 := (asyncHandler (login scrypt signAccessToken g salt body) db).2 in
  asyncHandler (login scrypt signAccessToken g salt body) db
  = (json 201
       (mkAuthJson (signAccessToken (mkJwtUser (generated_id g) USER))
          (publicUser (generated_id g, u))),
     with_user <[generated_id g := u]> db)
  ∧ (login_password body' = login_password body →
     asyncHandler (login scrypt signAccessToken g' salt' body') db1
     = (json 200
          (mkAuthJson (signAccessToken (mkJwtUser (generated_id g) USER))
             (publicUser (generated_id g, set_last_login (Some (now g')) u))),
        with_user <[generated_id g := set_last_login (Some (now g')) u]> db))
  ∧ (scrypt (login_password body) (toString_hex salt) KEY_LEN
     ≠ scrypt (login_password body') (toString_hex salt) KEY_LEN →
     asyncHandler (login scrypt signAccessToken g' salt' body') db1
     = (error 401 "Invalid email or password", db1)).
Proof.
  intros Hsalt Hnone Hfresh Hemail u db1.
  assert (asyncHandler (login scrypt signAccessToken g salt body) db
          = (json 201
               (mkAuthJson (signAccessToken (mkJwtUser (generated_id g) USER))
                  (publicUser (generated_id g, u))),
             with_user <[generated_id g := u]> db)) as Hfirst.
  { rewrite login_cases. simpl. by rewrite Hnone, Hfresh. }
  split; [done|].
  assert (db1 = with_user <[generated_id g := u]> db) as Hdb1
    by (unfold db1; by rewrite Hfirst).
  assert (head (users_with_email (toLowerCase (login_email body')) db1)
          = Some (generated_id g, u)) as Hfound.
  { rewrite Hdb1, Hemail. unfold users_with_email at 1. simpl.
    pose proof (users_with_email_insert_fresh db (generated_id g) u
                  (toLowerCase (login_email body)) Hfresh) as Hperm.
    rewrite Hnone, decide_True in Hperm by done. simpl in Hperm.
    by apply Permutation_singleton_r in Hperm as ->. }
  pose proof (verifyPassword_of_hash scrypt scrypt_length salt
                (login_password body) (login_password body') Hsalt)
    as Hverify.
  pose proof (hashPassword_nonempty scrypt salt (login_password body))
    as Hhash.
  split.
  - intros Hpw. rewrite login_cases. simpl. rewrite Hfound. simpl.
    rewrite (bool_decide_eq_false_2 _ Hhash). simpl.
    rewrite Hverify, Hpw, bool_decide_eq_true_2 by done.
    rewrite Hdb1. simpl. rewrite lookup_insert_eq.
    unfold with_user. simpl. by rewrite insert_insert_eq.
  - intros Hkey. rewrite login_cases. simpl. rewrite Hfound. simpl.
    rewrite (bool_decide_eq_false_2 _ Hhash). simpl.
    by rewrite Hverify, bool_decide_eq_false_2.
Qed.

Lemma bootstrap_cases g salt body db :
  asyncHandler (bootstrap_super_admin scrypt signAccessToken g salt body) db =
  if bool_decide
       (0 < length (filter (λ x : string * User.t, User.role x.2 = SUPER_ADMIN)
                           (map_to_list (user db))))%nat
  then (error 409 "SUPER_ADMIN already exists. Bootstrap endpoint disabled.",
        db)
  else
    let u := User.mk (bootstrap_name body) (toLowerCase (bootstrap_email body))
               (Some (hashPassword scrypt salt (bootstrap_password body)))
               SUPER_ADMIN (now g) (Some (now g)) in
    match user db !! generated_id g,
          users_with_email (toLowerCase (bootstrap_email body)) db with
    | None, [] =>
        (json 201
           (mkAuthJson
              (signAccessToken (mkJwtUser (generated_id g) SUPER_ADMIN))
              (publicUser (generated_id g, u))),
         with_user <[generated_id g := u]> db)
    | _, _ => (error 500 "Internal server error", db)
    end.
Proof.
  unfold asyncHandler, bootstrap_super_admin. simpl.
  case_bool_decide; [done|]. simpl. unfold user_create. simpl.
  destruct (user db !! generated_id g); [done|].
  by destruct (users_with_email _ db).
Qed.

(** X28. The bootstrap is answered Conflict exactly when the store has a
    SUPER_ADMIN, and then writes nothing; so once a bootstrap has
    succeeded, every later bootstrap is answered Conflict. *)
Theorem bootstrap_only_once g g' salt salt' body body' db :
  (asyncHandler (bootstrap_super_admin scrypt signAccessToken g salt body) db
   = (error 409 "SUPER_ADMIN already exists. Bootstrap endpoint disabled.", db)
   ↔ ∃ id u, user db !! id = Some u ∧ User.role u = SUPER_ADMIN)
  ∧ (status_code
       (asyncHandler (bootstrap_super_admin scrypt signAccessToken g salt body)
          db).1 = 201%nat →
     asyncHandler (bootstrap_super_admin scrypt signAccessToken g' salt' body')
       (asyncHandler (bootstrap_super_admin scrypt signAccessToken g salt body)
          db).2
     = (error 409 "SUPER_ADMIN already exists. Bootstrap endpoint disabled.",
        (asyncHandler (bootstrap_super_admin scrypt signAccessToken g salt body)
           db).2)).
Proof.
  assert (∀ d, (0 < length (filter (λ x : string * User.t,
                                      User.role x.2 = SUPER_ADMIN)
                                   (map_to_list (user d))))%nat
               ↔ ∃ id u, user d !! id = Some u ∧ User.role u = SUPER_ADMIN)
    as Hcount.
  { intros d. split.
    - destruct (filter _ _) as [|[id u] l] eqn:Hl; [simpl; lia|]. intros _.
      assert ((id, u) ∈ filter (λ x : string * User.t,
                                  User.role x.2 = SUPER_ADMIN)
                               (map_to_list (user d)))
        as [Hr Hin%elem_of_map_to_list]%list_elem_of_filter
        by (rewrite Hl; left).
      by exists id, u.
    - intros (id & u & Hu & Hr).
      assert ((id, u) ∈ filter (λ x : string * User.t,
                                  User.role x.2 = SUPER_ADMIN)
                               (map_to_list (user d))) as Hin.
      { apply list_elem_of_filter. split; [done|]. by apply elem_of_map_to_list. }
      destruct (filter _ _); [by apply elem_of_nil in Hin|simpl; lia]. }
  split.
  - rewrite bootstrap_cases. case_bool_decide as Hex.
    + split; [|done]. intros _. by apply Hcount.
    + split; [|by intros ?%Hcount]. simpl.
      destruct (user db !! generated_id g); [done|].
      by destruct (users_with_email _ db).
  - intros H201. rewrite (bootstrap_cases g salt body db) in H201 |- *.
    case_bool_decide as Hex; [done|]. simpl in H201 |- *.
    destruct (user db !! generated_id g) eqn:Hfresh; [done|].
    destruct (users_with_email _ db) eqn:Hmail; [|done].
    rewrite bootstrap_cases. rewrite bool_decide_eq_true_2; [done|].
    apply Hcount. eexists (generated_id g), _. simpl.
    by rewrite lookup_insert_eq.
Qed.

(** X29. login and the bootstrap keep e-mail addresses unique. *)
Theorem accounts_keep_emails_unique g salt lbody bbody db :
  unique_emails db →
  unique_emails (asyncHandler (login scrypt signAccessToken g salt lbody) db).2
  ∧ unique_emails
      (asyncHandler (bootstrap_super_admin scrypt signAccessToken g salt bbody)
         db).2.
Proof.
  intros Hu.
  assert (∀ u, user db !! generated_id g = None →
               users_with_email (User.email u) db = [] →
               unique_emails (with_user <[generated_id g := u]> db)) as Hins.
  { intros u Hfresh Hnil.
    pose proof (proj1 (users_with_email_nil _ _) Hnil) as Hnone.
    intros id1 id2 u1 u2. simpl.
    rewrite !lookup_insert. repeat case_decide.
    - congruence.
    - intros [= <-] H2 He. by destruct (Hnone id2 u2 H2).
    - intros H1 [= <-] He. by destruct (Hnone id1 u1 H1).
    - apply Hu. }
  split.
  - rewrite login_cases. simpl.
    destruct (head (users_with_email _ db)) as [[eid eu]|] eqn:Hex; simpl.
    + destruct (negb (truthy (User.password eu))); [done|].
      destruct (verifyPassword _ _ _) as [[]|]; [|done..].
      destruct (user db !! eid) as [u0|] eqn:Hu0; [|done].
      intros id1 id2 u1 u2. simpl. rewrite !lookup_insert.
      repeat case_decide.
      * congruence.
      * intros [= <-] H2 He. simpl in He.
        pose proof (Hu eid id2 u0 u2 Hu0 H2 He). congruence.
      * intros H1 [= <-] He. simpl in He.
        pose proof (Hu id1 eid u1 u0 H1 Hu0 He). congruence.
      * apply Hu.
    + destruct (user db !! generated_id g) eqn:Hfresh; [done|].
      apply Hins; [done|]. simpl.
      by destruct (users_with_email _ db).
  - rewrite bootstrap_cases. case_bool_decide; [done|]. simpl.
    destruct (user db !! generated_id g) eqn:Hfresh; [done|].
    destruct (users_with_email _ db) eqn:Hmail; [|done].
    by apply Hins.
Qed.
End accounts_properties.

Lemma login_after_first_login_witness :
  status_code
    (asyncHandler
       (login (λ _ _ n, replicate n "k"%char) userId (mkGen "-" 80)
          (replicate 16 "t"%char) (mkLoginBody "bob@lib.org" "secret1" None))
       (asyncHandler
          (login (λ _ _ n, replicate n "k"%char) userId (mkGen "U7" 70)
             (replicate 16 "s"%char)
             (mkLoginBody "Bob@Lib.org" "secret1" None)) registry0).2).1
  = 200%nat.
Proof.
  destruct (login_after_first_login (λ _ _ n, replicate n "k"%char) userId
              (λ _ _ n, length_replicate n _) (mkGen "U7" 70) (mkGen "-" 80)
              (replicate 16 "s"%char) (replicate 16 "t"%char)
              (mkLoginBody "Bob@Lib.org" "secret1" None)
              (mkLoginBody "bob@lib.org" "secret1" None) registry0
              eq_refl eq_refl eq_refl eq_refl) as (_ & Hagain & _).
  by rewrite (Hagain eq_refl).
Defined.

Lemma registry0_unique_emails : unique_emails registry0.
Proof.
  intros id1 id2 u1 u2. unfold registry0. simpl.
  by intros [<- _]%lookup_singleton_Some [<- _]%lookup_singleton_Some.
Defined.

Lemma accounts_keep_emails_unique_witness :
  unique_emails
    (asyncHandler
       (login (λ _ _ n, replicate n "k"%char) userId (mkGen "U7" 70)
          (replicate 16 "s"%char) (mkLoginBody "Bob@Lib.org" "secret1" None))
       registry0).2.
Proof.
  exact (proj1 (accounts_keep_emails_unique (λ _ _ n, replicate n "k"%char)
                  userId (mkGen "U7" 70) (replicate 16 "s"%char)
                  (mkLoginBody "Bob@Lib.org" "secret1" None)
                  (mkBootstrapBody "Root" "root@lib.org" "secret1")
                  registry0 registry0_unique_emails)).
Defined.

(** * The circulation invariant across the whole interface *)

Lemma consistent_frame db db' :
  book db' = book db → bookIssue db' = bookIssue db →
  consistent db → consistent db'.
Proof. intros Hb Hi Hc x. rewrite Hb, Hi. apply Hc. Qed.

Lemma referential_frame db db' :
  book db' = book db → bookIssue db' = bookIssue db →
  (∀ id, is_Some (user db !! id) → is_Some (user db' !! id)) →
  referential db → referential db'.
Proof.
  intros Hb Hi Hu Hr id i. rewrite Hb, Hi. intros [Hbk Hus]%Hr.
  split; [done|]. by apply Hu.
Qed.

Lemma updateBook_consistent id body db :
  consistent db → consistent (asyncHandler (updateBook id body) db).2.
Proof.
  intros Hc. rewrite updateBook_cases.
  destruct (book db !! id) as [b|] eqn:Hb; [|done].
  intros k. destruct (Hc k) as [Hle Hiff]. simpl. split; [done|].
  intros b'. rewrite lookup_insert. case_decide as Hk; [|apply Hiff].
  subst k. intros [= <-]. simpl. by apply Hiff.
Qed.

Lemma updateBook_referential id body db :
  referential db → referential (asyncHandler (updateBook id body) db).2.
Proof.
  intros Hr. rewrite updateBook_cases.
  destruct (book db !! id) as [b|] eqn:Hb; [|done].
  intros k i. simpl. intros [Hbk Hus]%Hr. split; [|done].
  rewrite lookup_insert. by case_decide.
Qed.

(** The payment, print and account routes leave the catalogue and the
    issue table alone and remove no user. *)
Lemma initiate_frame env g auth body db :
  book (asyncHandler (initiate env g auth body) db).2 = book db
  ∧ bookIssue (asyncHandler (initiate env g auth body) db).2 = bookIssue db
  ∧ user (asyncHandler (initiate env g auth body) db).2 = user db.
Proof.
  rewrite initiate_cases.
  destruct (printJob db !! initiate_print_id body) as [job|]; [|done].
  case_bool_decide; [done|]. case_bool_decide; [done|].
  by destruct (payment db !! generated_id g).
Qed.

Lemma verify_frame g auth body db :
  book (asyncHandler (verify g auth body) db).2 = book db
  ∧ bookIssue (asyncHandler (verify g auth body) db).2 = bookIssue db
  ∧ user (asyncHandler (verify g auth body) db).2 = user db.
Proof.
  rewrite verify_cases.
  destruct (payment db !! verify_payment_id body) as [p|]; [|done].
  case_bool_decide; [done|].
  by destruct (printJob db !! Payment.print_id p).
Qed.

Lemma upload_frame g auth body file db :
  book (asyncHandler (upload g auth body file) db).2 = book db
  ∧ bookIssue (asyncHandler (upload g auth body file) db).2 = bookIssue db
  ∧ user (asyncHandler (upload g auth body file) db).2 = user db.
Proof.
  rewrite upload_cases.
  destruct (uploadSchema body) as [[pages cost]|]; [|done].
  destruct file as [f|]; [|done].
  by destruct (printJob db !! generated_id g).
Qed.

Section api.
Variable scrypt : string → string → nat → Buffer.
Variable signAccessToken : JwtUser → string.

Lemma login_frame g salt body db :
  book (asyncHandler (login scrypt signAccessToken g salt body) db).2 = book db
  ∧ bookIssue (asyncHandler (login scrypt signAccessToken g salt body) db).2
    = bookIssue db
  ∧ ∀ id, is_Some (user db !! id) →
          is_Some (user (asyncHandler
                           (login scrypt signAccessToken g salt body) db).2
                     !! id).
Proof.
  rewrite login_cases. simpl.
  destruct (head (users_with_email _ db)) as [[eid eu]|]; simpl.
  - destruct (negb (truthy (User.password eu))); [done|].
    destruct (verifyPassword _ _ _) as [[]|]; [|done..].
    destruct (user db !! eid) as [u0|] eqn:Hu0; [|done].
    simpl. split_and!; [done..|].
    intros id Hid. rewrite lookup_insert. by case_decide.
  - destruct (user db !! generated_id g) eqn:Hfresh; [done|].
    simpl. split_and!; [done..|].
    intros id Hid. rewrite lookup_insert. by case_decide.
Qed.

Lemma bootstrap_frame g salt body db :
  book (asyncHandler (bootstrap_super_admin scrypt signAccessToken g salt body)
          db).2 = book db
  ∧ bookIssue
      (asyncHandler (bootstrap_super_admin scrypt signAccessToken g salt body)
         db).2 = bookIssue db
  ∧ ∀ id, is_Some (user db !! id) →
          is_Some (user (asyncHandler
                           (bootstrap_super_admin scrypt signAccessToken g
                              salt body) db).2 !! id).
Proof.
  rewrite bootstrap_cases. case_bool_decide; [done|]. simpl.
  destruct (user db !! generated_id g) eqn:Hfresh; [done|].
  destruct (users_with_email _ db); [|done].
  simpl. split_and!; [done..|].
  intros id Hid. rewrite lookup_insert. by case_decide.
Qed.

Lemma api_step_invariant db db' :
  api_step scrypt signAccessToken db db' →
  consistent db ∧ referential db → consistent db' ∧ referential db'.
Proof.
  intros Hstep [Hc Hr]. destruct Hstep.
  - split; [by apply issueBook_consistent|by apply issueBook_referential].
  - split; [by apply returnBook_consistent|by apply returnBook_referential].
  - split; [by apply updateBook_consistent|by apply updateBook_referential].
  - destruct (initiate_frame env g auth body db) as (Hb & Hi & Hu).
    split; [by apply (consistent_frame db)|].
    apply (referential_frame db); [done..| |done]. intros ?. by rewrite Hu.
  - destruct (verify_frame g auth body db) as (Hb & Hi & Hu).
    split; [by apply (consistent_frame db)|].
    apply (referential_frame db); [done..| |done]. intros ?. by rewrite Hu.
  - destruct (upload_frame g auth body file db) as (Hb & Hi & Hu).
    split; [by apply (consistent_frame db)|].
    apply (referential_frame db); [done..| |done]. intros ?. by rewrite Hu.
  - destruct (login_frame g salt body db) as (Hb & Hi & Hu).
    split; [by apply (consistent_frame db)|].
    by apply (referential_frame db).
  - destruct (bootstrap_frame g salt body db) as (Hb & Hi & Hu).
    split; [by apply (consistent_frame db)|].
    by apply (referential_frame db).
Qed.

(** X30. Whatever writing requests are served, one after the other (issue and
    return, catalogue edits, uploads, payments and verifications, logins
    and the bootstrap), a consistent store whose issue rows name existing
    books and users stays so: no request outside the circulation engine
    disturbs the books or their issues, and none removes a user. *)
Theorem api_invariant db0 db :
  consistent db0 → referential db0 →
  rtc (api_step scrypt signAccessToken) db0 db →
  consistent db ∧ referential db.
Proof.
  intros Hc Hr Hsteps.
  induction Hsteps as [|d1 d2 d3 Hstep _ IH]; [done|].
  destruct (api_step_invariant d1 d2 Hstep (conj Hc Hr)) as [Hc' Hr'].
  by apply IH.
Qed.
End api.

Lemma api_invariant_witness :
  consistent
    (asyncHandler (verify (mkGen "-" 20) (mkJwtUser "U1" USER)
                     (mkVerifyBody "PA1" "TXN123" SUCCESS))
       (asyncHandler (initiate default_env (mkGen "PA1" 10)
                        (mkJwtUser "U1" USER) (mkInitiateBody "P1" UPI))
          (asyncHandler (issueBook (mkGen "I1" 10) (mkIssueBody "B1" "U1" 99))
             library0).2).2).2.
Proof.
  apply (api_invariant (λ _ _ n, replicate n "k"%char) userId library0 _
           library0_consistent library0_referential).
  eapply rtc_l; [apply api_issueBook|].
  eapply rtc_l; [apply api_initiate|].
  eapply rtc_l; [apply api_verify|]. apply rtc_refl.
Defined.
